(** * IMPaCS: the grid-state engine of [impacts.py]

    A shallow embedding of the class [IMPAaCS] (cell store, impact locator,
    target averager, layer mixer, event driver, rebinning and sampling),
    and the properties of its specification that hold of it.

    Numbers.  The Python program computes with binary64 floats.  Here a
    finite float is an exact rational ([Q]): the rounding error of the
    arithmetic is not modelled, everything else is.  The three non-finite
    values of a NumPy float are kept ([np_float]) because the control flow
    of the program depends on them, and so is the difference between a
    Python number (division by zero raises) and a NumPy scalar (division by
    zero yields inf or nan). *)

From Stdlib Require Import ZArith QArith Qround Qabs Lia Lqa List.
From stdpp Require Import base option list gmap sorting.

Local Open Scope Z_scope.

(** ** Rounding and truncation *)

Module Num.

(** Round to the nearest integer, ties to the even one: Python's [round]
    and NumPy's [rint]. *)
Definition round_half_even (x : Q) : Z :=
  let f := Qfloor x in
  match Qcompare (x - inject_Z f) (1 # 2) with
  | Lt => f
  | Gt => f + 1
  | Eq => if Z.even f then f else f + 1
  end.

(** [round(x, 2)] on a Python float. *)
Definition py_round2 (x : Q) : Q := inject_Z (round_half_even (x * 100)) / 100.

(** [round(x)]: the nearest integer. *)
Definition py_round (x : Q) : Z := round_half_even x.

(** [int(x)]: truncation toward zero. *)
Definition py_int (x : Q) : Z := Z.quot (Qnum x) (Zpos (Qden x)).

(** The integer a float prints with four decimals, [round(x, 4)], scaled
    by 10^4. *)
Definition round4 (x : Q) : Z := round_half_even (x * 10000).

(** *** NumPy scalars *)

Inductive np_float : Type :=
  | Fin (q : Q)
  | PInf
  | NInf
  | NaN.

Definition of_sign (c : comparison) : np_float :=
  match c with Gt => PInf | Lt => NInf | Eq => NaN end.

Definition sgn (x : np_float) : comparison :=
  match x with
  | Fin q => Qcompare q 0
  | PInf => Gt
  | NInf => Lt
  | NaN => Eq
  end.

Definition sign_mul (a b : comparison) : comparison :=
  match a, b with
  | Eq, _ | _, Eq => Eq
  | Gt, c | c, Gt => c
  | Lt, Lt => Gt
  end.

Definition np_neg (x : np_float) : np_float :=
  match x with
  | Fin q => Fin (- q)
  | PInf => NInf
  | NInf => PInf
  | NaN => NaN
  end.

Definition np_add (x y : np_float) : np_float :=
  match x, y with
  | NaN, _ | _, NaN => NaN
  | Fin a, Fin b => Fin (a + b)
  | PInf, NInf | NInf, PInf => NaN
  | PInf, _ | _, PInf => PInf
  | NInf, _ | _, NInf => NInf
  end.

Definition np_sub (x y : np_float) : np_float :=
  match x, y with
  | Fin a, Fin b => Fin (a - b)
  | _, _ => np_add x (np_neg y)
  end.

Definition np_mul (x y : np_float) : np_float :=
  match x, y with
  | NaN, _ | _, NaN => NaN
  | Fin a, Fin b => Fin (a * b)
  | _, _ => of_sign (sign_mul (sgn x) (sgn y))
  end.

(** Division never raises on a NumPy scalar: [x/0] is an infinity of the
    sign of [x], and [0/0] is nan (zero is taken as positive). *)
Definition np_div (x y : np_float) : np_float :=
  match x, y with
  | NaN, _ | _, NaN => NaN
  | Fin a, Fin b => if Qeq_bool b 0 then of_sign (Qcompare a 0) else Fin (a / b)
  | Fin _, _ => Fin 0
  | _, Fin b => of_sign (sign_mul (sgn x) (if Qeq_bool b 0 then Gt else Qcompare b 0))
  | _, _ => NaN
  end.

(** [x <= s] and [x >= s]; every comparison with nan is false. *)
Definition np_leb (x y : np_float) : bool :=
  match x, y with
  | NaN, _ | _, NaN => false
  | Fin a, Fin b => Qle_bool a b
  | NInf, _ | _, PInf => true
  | _, _ => false
  end.

Definition np_geb (x y : np_float) : bool := np_leb y x.

Definition np_isnan (x : np_float) : bool :=
  match x with NaN => true | _ => false end.

Definition np_isfinite (x : np_float) : bool :=
  match x with Fin _ => true | _ => false end.

(** [np.round(x, 1)], which NumPy computes as [rint(x * 10) / 10]. *)
Definition np_round1 (x : np_float) : np_float :=
  match x with
  | Fin q => Fin (inject_Z (round_half_even (q * 10)) / 10)
  | _ => x
  end.

(** [np.sum] of a slice of a column. *)
Definition np_sum (l : list np_float) : np_float := fold_left np_add l (Fin 0).

(** [np.mean]: the sum over the number of elements (nan on an empty slice). *)
Definition np_mean (l : list np_float) : np_float :=
  np_div (np_sum l) (Fin (inject_Z (Z.of_nat (length l)))).

(** *** Python values: a Python number or a NumPy scalar *)

Inductive pyval : Type :=
  | PyNum (q : Q)
  | NpNum (x : np_float).

Definition to_np (v : pyval) : np_float :=
  match v with PyNum q => Fin q | NpNum x => x end.

Definition py_add (a b : pyval) : pyval :=
  match a, b with
  | PyNum x, PyNum y => PyNum (x + y)
  | _, _ => NpNum (np_add (to_np a) (to_np b))
  end.

Definition py_sub (a b : pyval) : pyval :=
  match a, b with
  | PyNum x, PyNum y => PyNum (x - y)
  | _, _ => NpNum (np_sub (to_np a) (to_np b))
  end.

Definition py_mul (a b : pyval) : pyval :=
  match a, b with
  | PyNum x, PyNum y => PyNum (x * y)
  | _, _ => NpNum (np_mul (to_np a) (to_np b))
  end.

(** True division; [None] is Python's ZeroDivisionError, raised only when
    both operands are Python numbers. *)
Definition py_truediv (a b : pyval) : option pyval :=
  match a, b with
  | PyNum x, PyNum y => if Qeq_bool y 0 then None else Some (PyNum (x / y))
  | _, _ => Some (NpNum (np_div (to_np a) (to_np b)))
  end.

End Num.
Export Num.

(** ** The object and its exceptions *)

Inductive exn : Type :=
  | ZeroDivisionError
  | KeyError
  | IndexError
  | ValueError.

Inductive result (A : Type) : Type :=
  | Ok (a : A)
  | Raise (e : exn).
Arguments Ok {A} a.
Arguments Raise {A} e.

(** A grid cell identity: the string [str(round(lon,4))+' '+str(round(lat,4))],
    kept as the pair of four-decimal fixed-point numbers it prints. *)
Definition cell_id : Type := (Z * Z)%type.

Definition grid_cell_id_of (ilon ilat : Q) : cell_id := (round4 ilon, round4 ilat).

(** The attributes of [self] that the constructor fixes. *)
Record Params : Type := {
  primitive_initial_state : Q;
  max_depth_of_impact_melt : Q;
  fraction_upper_layer : Q;
  fraction_lower_layer : Q;
  target_SiO2 : Q;
  upper_SiO2 : Q;
  z_discretized_km : Q;
  proportion_melt_from_impact : Q;
  lon_lims : Q * Q;
  lat_lims : Q * Q;
  lon_subset : list Q;
  lat_subset : list Q
}.

(** The history of the monitored cell. *)
Record Trace : Type := {
  count_test_hits : Z;
  test_time : list Q;
  impactors_at_test_cell : list Q;
  average_test_target_list : list pyval;
  top_layer_at_test_cell : list pyval
}.

(** [self].  [crator_diameter], [crator_radius] and [z_layers] are created
    by [impact_dimensions], which [update] calls before anything reads
    them; they start at zero here.  The attributes that nothing reads or
    that only drive printing and plotting ([verbose], [ensemble],
    [n_layers_impact_melt], [average_target_list], [n_x], [n_y]) are left
    out. *)
Record IMPAaCS : Type := {
  params :> Params;
  sim_time : Q;
  crator_diameter : Q;
  crator_radius : Q;
  z_layers : Z;
  average_target : pyval;
  grid_cell_state : gmap cell_id (list np_float);
  impacted_grid_cells : list (Q * Q);
  trace :> Trace;
  sample_percents : list (Z * Q)
}.

Definition set_sim_time (v : Q) (s : IMPAaCS) : IMPAaCS :=
  {| params := params s; sim_time := v; crator_diameter := crator_diameter s;
     crator_radius := crator_radius s; z_layers := z_layers s;
     average_target := average_target s; grid_cell_state := grid_cell_state s;
     impacted_grid_cells := impacted_grid_cells s; trace := trace s;
     sample_percents := sample_percents s |}.

Definition set_crator_diameter (v : Q) (s : IMPAaCS) : IMPAaCS :=
  {| params := params s; sim_time := sim_time s; crator_diameter := v;
     crator_radius := crator_radius s; z_layers := z_layers s;
     average_target := average_target s; grid_cell_state := grid_cell_state s;
     impacted_grid_cells := impacted_grid_cells s; trace := trace s;
     sample_percents := sample_percents s |}.

Definition set_crator_radius (v : Q) (s : IMPAaCS) : IMPAaCS :=
  {| params := params s; sim_time := sim_time s; crator_diameter := crator_diameter s;
     crator_radius := v; z_layers := z_layers s;
     average_target := average_target s; grid_cell_state := grid_cell_state s;
     impacted_grid_cells := impacted_grid_cells s; trace := trace s;
     sample_percents := sample_percents s |}.

Definition set_z_layers (v : Z) (s : IMPAaCS) : IMPAaCS :=
  {| params := params s; sim_time := sim_time s; crator_diameter := crator_diameter s;
     crator_radius := crator_radius s; z_layers := v;
     average_target := average_target s; grid_cell_state := grid_cell_state s;
     impacted_grid_cells := impacted_grid_cells s; trace := trace s;
     sample_percents := sample_percents s |}.

Definition set_average_target (v : pyval) (s : IMPAaCS) : IMPAaCS :=
  {| params := params s; sim_time := sim_time s; crator_diameter := crator_diameter s;
     crator_radius := crator_radius s; z_layers := z_layers s;
     average_target := v; grid_cell_state := grid_cell_state s;
     impacted_grid_cells := impacted_grid_cells s; trace := trace s;
     sample_percents := sample_percents s |}.

Definition set_grid_cell_state (v : gmap cell_id (list np_float)) (s : IMPAaCS) : IMPAaCS :=
  {| params := params s; sim_time := sim_time s; crator_diameter := crator_diameter s;
     crator_radius := crator_radius s; z_layers := z_layers s;
     average_target := average_target s; grid_cell_state := v;
     impacted_grid_cells := impacted_grid_cells s; trace := trace s;
     sample_percents := sample_percents s |}.

Definition set_impacted_grid_cells (v : list (Q * Q)) (s : IMPAaCS) : IMPAaCS :=
  {| params := params s; sim_time := sim_time s; crator_diameter := crator_diameter s;
     crator_radius := crator_radius s; z_layers := z_layers s;
     average_target := average_target s; grid_cell_state := grid_cell_state s;
     impacted_grid_cells := v; trace := trace s;
     sample_percents := sample_percents s |}.

Definition set_trace (v : Trace) (s : IMPAaCS) : IMPAaCS :=
  {| params := params s; sim_time := sim_time s; crator_diameter := crator_diameter s;
     crator_radius := crator_radius s; z_layers := z_layers s;
     average_target := average_target s; grid_cell_state := grid_cell_state s;
     impacted_grid_cells := impacted_grid_cells s; trace := v;
     sample_percents := sample_percents s |}.

Definition set_sample_percents (v : list (Z * Q)) (s : IMPAaCS) : IMPAaCS :=
  {| params := params s; sim_time := sim_time s; crator_diameter := crator_diameter s;
     crator_radius := crator_radius s; z_layers := z_layers s;
     average_target := average_target s; grid_cell_state := grid_cell_state s;
     impacted_grid_cells := impacted_grid_cells s; trace := trace s;
     sample_percents := v |}.

(** ** Methods run on [self] and may raise

    A method is a function from the object to the object it leaves behind
    and either a value or the exception raised: what was written before a
    raise stays written. *)

Definition Py (A : Type) : Type := IMPAaCS -> IMPAaCS * result A.

#[export] Instance Py_ret : MRet Py := fun A a s => (s, Ok a).

Definition bind {A B : Type} (m : Py A) (f : A -> Py B) : Py B := fun s =>
  match m s with
  | (s', Ok a) => f a s'
  | (s', Raise e) => (s', Raise e)
  end.

#[export] Instance Py_bind : MBind Py := fun A B f m => bind m f.

Notation "'let*' x ':=' m 'in' k" := (bind m (fun x => k))
  (at level 10, x name, m at level 100, k at level 200).

Definition get_self : Py IMPAaCS := fun s => (s, Ok s).
Definition modify (f : IMPAaCS -> IMPAaCS) : Py unit := fun s => (f s, Ok tt).
Definition raise {A : Type} (e : exn) : Py A := fun s => (s, Raise e).

(** [for x in l: body]. *)
Fixpoint for_ {B : Type} (l : list B) (body : B -> Py unit) : Py unit :=
  match l with
  | [] => mret tt
  | x :: l' => body x ;; for_ l' body
  end.

(** [range(a, b)]. *)
Definition py_range (a b : Z) : list Z := seqZ a (b - a).

(** [a / b] on Python numbers. *)
Definition py_div (a b : Q) : Py Q :=
  if Qeq_bool b 0 then raise ZeroDivisionError else mret (a / b)%Q.

(** [a / b] when either may be a NumPy scalar. *)
Definition truediv (a b : pyval) : Py pyval :=
  match py_truediv a b with
  | Some v => mret v
  | None => raise ZeroDivisionError
  end.

(** The position an index denotes in an array of length [n]: negative
    indices count from the end, anything else out of range is an
    IndexError. *)
Definition py_index (n : nat) (i : Z) : option nat :=
  if (0 <=? i) && (i <? Z.of_nat n) then Some (Z.to_nat i)
  else if (- Z.of_nat n <=? i) && (i <? 0) then Some (Z.to_nat (Z.of_nat n + i))
  else None.

(** [self.grid_cell_state[key][i]]. *)
Definition getitem (key : cell_id) (i : Z) : Py np_float :=
  let* self := get_self in
  match grid_cell_state self !! key with
  | None => raise KeyError
  | Some col =>
      match py_index (length col) i with
      | None => raise IndexError
      | Some n =>
          match col !! n with
          | Some x => mret x
          | None => raise IndexError
          end
      end
  end.

(** [self.grid_cell_state[key][i] = v]: the array is updated in place. *)
Definition setitem (key : cell_id) (i : Z) (v : np_float) : Py unit :=
  let* self := get_self in
  match grid_cell_state self !! key with
  | None => raise KeyError
  | Some col =>
      match py_index (length col) i with
      | None => raise IndexError
      | Some n => modify (set_grid_cell_state (<[key := <[n := v]> col]> (grid_cell_state self)))
      end
  end.

(** [a[:z]]. *)
Definition slice_to {A : Type} (z : Z) (a : list A) : list A :=
  take (Z.to_nat (if z <? 0 then Z.of_nat (length a) + z else z)) a.

(** [np.ones(n)]. *)
Definition np_ones (n : Z) : Py (list np_float) :=
  if n <? 0 then raise ValueError else mret (replicate (Z.to_nat n) (Fin 1)).

(** ** The methods of [IMPAaCS] *)

(** [impact_test_id], the key of the monitored cell:
    [str(round(0.14122179,4))+' '+str(round(0.18672199,4))]. *)
Definition impact_test_id : cell_id :=
  grid_cell_id_of (14122179 # 100000000) (18672199 # 100000000).

(** [x in l] on a list of floats. *)
Definition py_in (x : Q) (l : list Q) : bool := existsb (Qeq_bool x) l.

Definition Qltb (a b : Q) : bool := negb (Qle_bool b a).

(** [get_subset_of_grids]: the longitudes and latitudes of the provider's
    grid strictly inside the box, each kept once, in order of appearance. *)
Definition get_subset_of_grids (londim latdim : list Q) (lon_lims lat_lims : Q * Q)
  : list Q * list Q :=
  fold_left (fun '(lon_sub, lat_sub) '(ilon, ilat) =>
    if Qltb (fst lat_lims) ilat && Qltb ilat (snd lat_lims) then
      if Qltb (fst lon_lims) ilon && Qltb ilon (snd lon_lims) then
        let lat_sub' := if py_in ilat lat_sub then lat_sub else lat_sub ++ [ilat] in
        let lon_sub' := if py_in ilon lon_sub then lon_sub else lon_sub ++ [ilon] in
        (lon_sub', lat_sub')
      else (lon_sub, lat_sub)
    else (lon_sub, lat_sub))
  (list_prod londim latdim) ([], []).

(** The cells of the working grid in the order the two nested loops
    [for ilon in lon_subset: for ilat in lat_subset] visit them. *)
Definition grid_points (p : Params) : list (Q * Q) :=
  list_prod (lon_subset p) (lat_subset p).

Definition state_prep : Py unit :=
  let* self := get_self in
  let* q := py_div (max_depth_of_impact_melt self) (z_discretized_km self) in
  let total_layers := py_int q in
  for_ (grid_points self) (fun '(ilon, ilat) =>
    let grid_cell_id := grid_cell_id_of ilon ilat in
    let* ones := np_ones total_layers in
    let column := map (fun o => np_mul o (Fin (primitive_initial_state self))) ones in
    modify (fun s => set_grid_cell_state (<[grid_cell_id := column]> (grid_cell_state s)) s)).

(** [__init__]: the object as the assignments of the constructor leave
    it, then [state_prep]. *)
Definition init (londim latdim : list Q)
    (max_depth_of_impact_melt primitive_initial_state fraction_upper_layer
     target_SiO2 upper_SiO2 z_discretized_km proportion_melt_from_impact sim_time : Q)
    (lon_lims lat_lims : Q * Q) : IMPAaCS * result unit :=
  let subsets := get_subset_of_grids londim latdim lon_lims lat_lims in
  state_prep
    {| params :=
         {| primitive_initial_state := primitive_initial_state;
            max_depth_of_impact_melt := max_depth_of_impact_melt;
            fraction_upper_layer := fraction_upper_layer;
            fraction_lower_layer := 1 - fraction_upper_layer;
            target_SiO2 := target_SiO2;
            upper_SiO2 := upper_SiO2;
            z_discretized_km := z_discretized_km;
            proportion_melt_from_impact := proportion_melt_from_impact;
            lon_lims := lon_lims;
            lat_lims := lat_lims;
            lon_subset := fst subsets;
            lat_subset := snd subsets |};
       sim_time := sim_time;
       crator_diameter := 0;
       crator_radius := 0;
       z_layers := 0;
       average_target := PyNum primitive_initial_state;
       grid_cell_state := ∅;
       impacted_grid_cells := [];
       trace :=
         {| count_test_hits := 0;
            test_time := [0%Q];
            impactors_at_test_cell := [0%Q];
            average_test_target_list := [PyNum primitive_initial_state];
            top_layer_at_test_cell := [PyNum primitive_initial_state] |};
       sample_percents := [] |}.

(** The constructor with its default arguments (bounding box included). *)
Definition init_default (londim latdim : list Q) : IMPAaCS * result unit :=
  init londim latdim 330 45 (2 # 3) (6258 # 100) (6871 # 100) 2 (1 # 3) 0
       (-180, 180)%Q (-45, 45)%Q.

(** [melt_layers] and the index where the disturbed layers are split, as
    [state_dynamics] computes them. *)
Definition split_index (fraction_upper_layer : Q) (melt_layers : Z) : Z :=
  py_int (py_round2 (fraction_upper_layer * inject_Z melt_layers)).

Definition lower_layer (fraction_upper_layer : Q) (melt_layers : Z) : list Z :=
  py_range (split_index fraction_upper_layer melt_layers) melt_layers.

Definition upper_layer (fraction_upper_layer : Q) (melt_layers : Z) : list Z :=
  py_range 0 (split_index fraction_upper_layer melt_layers).

(** [state_dynamics].  The local [fracionated_melt] is computed and never
    read; it is left out.  In each assignment the right-hand side is
    evaluated before the column is looked up. *)
Definition state_dynamics (impactor_diameter : Q) (grid_cell_id : cell_id) : Py unit :=
  let* self := get_self in
  let depth_of_impact_melt := (impactor_diameter * proportion_melt_from_impact self)%Q in
  let* q := py_div depth_of_impact_melt (z_discretized_km self) in
  let melt_layers := py_int q in
  let lower_layer := lower_layer (fraction_upper_layer self) melt_layers in
  let upper_layer := upper_layer (fraction_upper_layer self) melt_layers in
  let* r := py_div (target_SiO2 self) (upper_SiO2 self) in
  let fractionation_factor := (1 - r)%Q in
  for_ lower_layer (fun i =>
    setitem grid_cell_id i (Fin (primitive_initial_state self))) ;;
  for_ upper_layer (fun i =>
    let* v := truediv (average_target self) (PyNum (1 - fractionation_factor)) in
    setitem grid_cell_id i (to_np v)) ;;
  let* wt_sio2_upper := getitem grid_cell_id 0 in
  for_ lower_layer (fun i =>
    let numerator :=
      py_sub (average_target self)
             (py_mul (PyNum (fraction_upper_layer self)) (NpNum wt_sio2_upper)) in
    let* v := truediv numerator (PyNum (fraction_lower_layer self)) in
    setitem grid_cell_id i (to_np v)) ;;
  for_ (py_range 0 melt_layers) (fun i =>
    let* x := getitem grid_cell_id i in
    setitem grid_cell_id i (np_round1 x)).

Definition get_average_target (impactor_diameter : Q) : Py unit :=
  let* self := get_self in
  let average_target :=
    fold_left (fun acc '(ilon, ilat) =>
      let grid_cell_id := grid_cell_id_of ilon ilat in
      match grid_cell_state self !! grid_cell_id with
      | Some column => py_add acc (NpNum (np_sum (slice_to (z_layers self) column)))
      | None => py_add acc (PyNum (primitive_initial_state self * inject_Z (z_layers self)))
      end) (impacted_grid_cells self) (PyNum 0) in
  let* v := truediv average_target
        (PyNum (inject_Z (Z.of_nat (length (impacted_grid_cells self)) * z_layers self))) in
  modify (set_average_target v).

Definition impact_dimensions (impactor_diameter : Q) : Py unit :=
  modify (set_crator_diameter (10 * impactor_diameter)) ;;
  modify (fun s => set_crator_radius (crator_diameter s / 2) s) ;;
  let* self := get_self in
  let* q := py_div impactor_diameter (z_discretized_km self) in
  modify (set_z_layers (Qceiling q)).

(** The object [impact_dimensions] leaves when the layer thickness is
    not zero. *)
Definition with_dimensions (d : Q) (s : IMPAaCS) : IMPAaCS :=
  set_z_layers (Qceiling (d / z_discretized_km s))
    (set_crator_radius (10 * d / 2) (set_crator_diameter (10 * d) s)).

Definition test_one_grid_cell (grid_cell_id : cell_id) (impactor_diameter : Q) : Py unit :=
  if decide (grid_cell_id = impact_test_id) then
    modify (fun s => set_trace
      {| count_test_hits := count_test_hits s + 1;
         test_time := test_time s ++ [sim_time s];
         impactors_at_test_cell := impactors_at_test_cell s ++ [impactor_diameter];
         average_test_target_list := average_test_target_list s ++ [average_target s];
         top_layer_at_test_cell := top_layer_at_test_cell s |} s) ;;
    let* top := getitem impact_test_id 0 in
    modify (fun s => set_trace
      {| count_test_hits := count_test_hits s;
         test_time := test_time s;
         impactors_at_test_cell := impactors_at_test_cell s;
         average_test_target_list := average_test_target_list s;
         top_layer_at_test_cell := top_layer_at_test_cell s ++ [NpNum top] |} s)
  else mret tt.

(** The body of [loop_impact_grid], over the cells in the order given. *)
Definition mix_cells (impactor_diameter : Q) (cells : list (Q * Q)) : Py unit :=
  for_ cells (fun '(ilon, ilat) =>
    let grid_cell_id := grid_cell_id_of ilon ilat in
    state_dynamics impactor_diameter grid_cell_id ;;
    test_one_grid_cell grid_cell_id impactor_diameter).

Definition loop_impact_grid (impactor_diameter : Q) : Py unit :=
  let* self := get_self in
  mix_cells impactor_diameter (impacted_grid_cells self).

Section Locator.

(** [distance(lat1, lat2, lon1, lon2)], the haversine great-circle
    distance in km.  It is built from [sin], [cos], [sqrt] and [atan2],
    which have no rational values; the locator only compares its results,
    so it is a parameter here. *)
Variable distance : Q -> Q -> Q -> Q -> Q.

(** The first pair of loops of [find_the_grid]: the running minimum and
    the cells within the crater radius. *)
Definition scan_grid (impact_loc : Q * Q) (radius : Q) (cells : list (Q * Q))
  : Q * list (Q * Q) :=
  fold_left (fun '(Dmin, impacted) '(ilon, ilat) =>
    let D := distance (fst impact_loc) ilat (snd impact_loc) ilon in
    (if Qltb D Dmin then D else Dmin,
     if Qle_bool D radius then impacted ++ [(ilon, ilat)] else impacted))
  cells (10000000%Q, []).

(** [find_the_grid]; [impact_loc] is [(lat, lon)], a cell is [[ilon, ilat]].
    The messages printed when [verbose] is set are left out. *)
Definition find_the_grid (impact_loc : Q * Q) : Py unit :=
  modify (set_impacted_grid_cells []) ;;
  let* self := get_self in
  let '(Dmin, impacted) := scan_grid impact_loc (crator_radius self) (grid_points self) in
  modify (set_impacted_grid_cells impacted) ;;
  if (Z.of_nat (length impacted) <? 1) then
    if Qltb Dmin 30 then
      modify (set_impacted_grid_cells
        (List.filter (fun '(ilon, ilat) =>
                        Qeq_bool (distance (fst impact_loc) ilat (snd impact_loc) ilon) Dmin)
                     (grid_points self)))
    else mret tt
  else mret tt.

Definition update (impact_loc : Q * Q) (impactor_diameter : Q) (sim_time : Q) : Py unit :=
  modify (set_sim_time sim_time) ;;
  impact_dimensions impactor_diameter ;;
  find_the_grid impact_loc ;;
  let* self := get_self in
  if (0 <? Z.of_nat (length (impacted_grid_cells self))) then
    get_average_target impactor_diameter ;;
    loop_impact_grid impactor_diameter
  else mret tt.

(** The footprint [find_the_grid] leaves in [impacted_grid_cells], as a
    function of the impact location, the crater radius and the cells of
    the working grid. *)
Definition footprint (impact_loc : Q * Q) (radius : Q) (cells : list (Q * Q))
  : list (Q * Q) :=
  let '(Dmin, impacted) := scan_grid impact_loc radius cells in
  if (Z.of_nat (length impacted) <? 1) then
    if Qltb Dmin 30 then
      List.filter (fun '(ilon, ilat) =>
                     Qeq_bool (distance (fst impact_loc) ilat (snd impact_loc) ilon) Dmin)
                  cells
    else impacted
  else impacted.

(** A sequence of events [(impact_loc, impactor_diameter, sim_time)], each
    applied to the object the previous one left, raised or not. *)
Definition run_events (events : list (Q * Q * Q * Q)) (s : IMPAaCS) : IMPAaCS :=
  fold_left (fun s '(impact_loc, impactor_diameter, sim_time) =>
               fst (update impact_loc impactor_diameter sim_time s))
            events s.

End Locator.

(** ** Rebinning and sampling *)

(** [range(a, b, d)]; a zero step is a ValueError. *)
Definition py_range3 (a b d : Z) : option (list Z) :=
  if d =? 0 then None
  else if 0 <? d then Some (map (fun k => a + d * k) (seqZ 0 ((b - a + d - 1) / d)))
  else Some (map (fun k => a + d * k) (seqZ 0 ((a - b - d - 1) / (- d)))).

(** The loop of [re_bin_sio2] over the bins still to visit; running off
    the end of the loop returns [None]. *)
Fixpoint re_bin_scan (temp_state : np_float) (s_max : Z) (bins : list Z) : option Z :=
  match bins with
  | [] => None
  | s :: bins' =>
      if np_leb temp_state (Fin (inject_Z s)) then Some s
      else if np_geb temp_state (Fin (inject_Z s_max)) then Some s_max
      else re_bin_scan temp_state s_max bins'
  end.

Definition re_bin_sio2 (temp_state : np_float) (s_min s_max ds : Z) : result (option Z) :=
  match py_range3 s_min s_max ds with
  | None => Raise ValueError
  | Some bins => Ok (re_bin_scan temp_state s_max bins)
  end.

(** [np.unique]: the distinct values in increasing order. *)
Definition np_unique (l : list Z) : list Z := merge_sort Z.le (remove_dups l).

(** The loops of [do_sample_percents] over the working grid: the bin of
    every cell whose mean is not nan is appended to [bar_list]. *)
Fixpoint sample_cells (store : gmap cell_id (list np_float)) (cells : list (Q * Q))
    (bar_list : list (option Z)) : result (list (option Z)) :=
  match cells with
  | [] => Ok bar_list
  | (ilon, ilat) :: cells' =>
      match store !! grid_cell_id_of ilon ilat with
      | None => Raise KeyError
      | Some column =>
          let mean_sio2 := np_mean (take 2 column) in
          if np_isnan mean_sio2 then sample_cells store cells' bar_list
          else
            match re_bin_sio2 mean_sio2 1 100 1 with
            | Raise e => Raise e
            | Ok b => sample_cells store cells' (bar_list ++ [b])
            end
      end
  end.

(** [bar_data]: each distinct bin with [100 * count / len(bar_list)]. *)
Definition bar_data (bar_list : list Z) : list (Z * Q) :=
  map (fun u => (u, inject_Z (100 * Z.of_nat (count_occ Z.eq_dec bar_list u))
                     / inject_Z (Z.of_nat (length bar_list)))%Q)
      (np_unique bar_list).

(** [do_sample_percents]; the array [z] it also fills is local and
    dropped, and is not modelled. *)
Definition do_sample_percents : Py unit :=
  let* self := get_self in
  match sample_cells (grid_cell_state self) (grid_points self) [] with
  | Raise e => raise e
  | Ok bar_list =>
      let bar_list := omap id bar_list in
      modify (set_sample_percents (bar_data bar_list))
  end.


(** ** Quantities of one event, as the methods compute them *)

(** [melt_layers = int(impactor_diameter * proportion / z_discretized_km)]. *)
Definition melt_layers_of (p : Params) (impactor_diameter : Q) : Z :=
  py_int (impactor_diameter * proportion_melt_from_impact p / z_discretized_km p).

(** [1 - fractionation_factor], the divisor of the upper value. *)
Definition one_minus_fractionation (p : Params) : Q :=
  (1 - (1 - target_SiO2 p / upper_SiO2 p))%Q.

(** The value the second pass over the lower range computes from the
    value [wt] read at index 0. *)
Definition lower_value (s : IMPAaCS) (wt : np_float) : np_float :=
  np_div (np_sub (to_np (average_target s)) (np_mul (Fin (fraction_upper_layer s)) wt))
         (Fin (fraction_lower_layer s)).


(** ** What a method may change *)

(** [store_frame P s s']: from [s] to [s'] the store keeps its keys and
    the length of every column, and every layer outside [P] keeps its
    value. *)
Definition store_frame (P : cell_id -> nat -> Prop) (s s' : IMPAaCS) : Prop :=
  forall k : cell_id,
    option_Forall2
      (fun c c' : list np_float =>
         length c' = length c /\ forall n : nat, ~ P k n -> c' !! n = c !! n)
      (grid_cell_state s !! k) (grid_cell_state s' !! k).

(** A method keeps [R] from every object satisfying [I], whether it
    returns or raises, and leaves an object satisfying [I]. *)
Definition keeps (I : IMPAaCS -> Prop) (R : IMPAaCS -> IMPAaCS -> Prop)
    {A : Type} (m : Py A) : Prop :=
  forall s, I s -> I (fst (m s)) /\ R s (fst (m s)).

(** ** Closed forms used in the proofs *)

(** The column [np.ones(total_layers) * primitive_initial_state]. *)
Definition fresh_column (total_layers : Z) (primitive : Q) : list np_float :=
  map (fun o => np_mul o (Fin primitive)) (replicate (Z.to_nat total_layers) (Fin 1)).

(** The store after the loops of [state_prep] over [cells]. *)
Definition prepared (column : list np_float) (cells : list (Q * Q))
    (store : gmap cell_id (list np_float)) : gmap cell_id (list np_float) :=
  foldl (fun st c => <[grid_cell_id_of c.1 c.2 := column]> st) store cells.

(** The distance from the impact location [(lat, lon)] to the cell
    [(ilon, ilat)], as both loops of [find_the_grid] compute it. *)
Definition cell_distance (distance : Q -> Q -> Q -> Q -> Q)
    (impact_loc : Q * Q) (c : Q * Q) : Q :=
  distance (fst impact_loc) (snd c) (snd impact_loc) (fst c).

(** The cells of the grid within the crater radius. *)
Definition within_radius (distance : Q -> Q -> Q -> Q -> Q)
    (impact_loc : Q * Q) (radius : Q) (cells : list (Q * Q)) : list (Q * Q) :=
  List.filter (fun c => Qle_bool (cell_distance distance impact_loc c) radius) cells.

(** ** Concrete objects

    [flat_distance] stands in for the haversine distance where a grid is
    run: 111 km per degree of latitude plus 111 km per degree of
    longitude.  Like the haversine distance it is 0 between a point and
    itself. *)
Definition flat_distance (lat1 lat2 lon1 lon2 : Q) : Q :=
  111 * (Qabs (lat2 - lat1) + Qabs (lon2 - lon1)).

(** The object built with the default arguments on the grid of longitudes
    and latitudes 0, 1, 2. *)
Definition fresh_grid : IMPAaCS := fst (init_default [0%Q; 1%Q; 2%Q] [0%Q; 1%Q; 2%Q]).



(** The specification's reading of the partition boundary for one
    impactor diameter: the disturbed layers are split at the integer
    nearest to [upper_fraction * melt_layers]. *)
Definition partition_at_nearest (p : Params) (impactor_diameter : Q) : Prop :=
  let m := melt_layers_of p impactor_diameter in
  let b := py_round (fraction_upper_layer p * inject_Z m) in
  upper_layer (fraction_upper_layer p) m = py_range 0 b
  /\ lower_layer (fraction_upper_layer p) m = py_range b m.

(** The object with the column of [key] replaced. *)
Definition with_column (key : cell_id) (col : list np_float) (s : IMPAaCS) : IMPAaCS :=
  set_grid_cell_state (<[key := col]> (grid_cell_state s)) s.

(** A column after [for i in l: column[i] = v]. *)
Definition write_range (v : np_float) (l : list Z) (col : list np_float) : list np_float :=
  foldl (fun c i => <[Z.to_nat i := v]> c) col l.

(** A column after [for i in l: column[i] = np.round(column[i], 1)]. *)
Definition round_range (l : list Z) (col : list np_float) : list np_float :=
  foldl (fun c i => match c !! Z.to_nat i with
                    | Some x => <[Z.to_nat i := np_round1 x]> c
                    | None => c
                    end) col l.

(** The column the four loops of [state_dynamics] leave, given the upper
    value [u]. *)
Definition mixed_column (s : IMPAaCS) (d : Q) (u : pyval) (col : list np_float)
  : list np_float :=
  let m := melt_layers_of s d in
  let lower := lower_layer (fraction_upper_layer s) m in
  let upper := upper_layer (fraction_upper_layer s) m in
  let c1 := write_range (Fin (primitive_initial_state s)) lower col in
  let c2 := write_range (to_np u) upper c1 in
  match c2 !! 0%nat with
  | Some wt => round_range (py_range 0 m) (write_range (lower_value s wt) lower c2)
  | None => c2
  end.

(** Equality of NumPy scalars as numbers. *)
Definition np_eq (x y : np_float) : Prop :=
  match x, y with
  | Fin a, Fin b => (a == b)%Q
  | PInf, PInf | NInf, NInf | NaN, NaN => True
  | _, _ => False
  end.

(** The layer [i] of the column of [key]. *)
Definition layer (s : IMPAaCS) (key : cell_id) (i : Z) : option np_float :=
  grid_cell_state s !! key ≫= fun col => col !! Z.to_nat i.

(** The specification's reading of the layer mixer's postcondition at one
    call: the upper range holds [average_target / (1 - fractionation_factor)]
    and the lower range holds the mass-balance value computed from that
    upper value, both rounded to one decimal. *)
Definition claimed_upper_value (s : IMPAaCS) : np_float :=
  np_div (to_np (average_target s)) (Fin (one_minus_fractionation s)).



(** The object built with the default arguments on the grid of the single
    point (0, 0). *)
Definition single_grid : IMPAaCS := fst (init_default [0%Q] [0%Q]).

(** [single_grid] after an impactor of diameter 30 at (0, 0), and then, for
    a second impactor of diameter 6 at the same place, as [update] has it
    when it calls [get_average_target] (dimensions set and the footprint,
    the one cell, found) and when it calls [loop_impact_grid] (the average
    target computed). *)
Definition after_first_hit : IMPAaCS :=
  fst (update flat_distance (0%Q, 0%Q) 30 0 single_grid).

Definition before_second_average : IMPAaCS :=
  set_impacted_grid_cells [(0%Q, 0%Q)] (with_dimensions 6 (set_sim_time 1 after_first_hit)).

Definition before_second_mix : IMPAaCS :=
  fst (get_average_target 6 before_second_average).




(** The specification's reading of the target average: the arithmetic
    mean over all (cell, layer) pairs of the top [z_layers] values of each
    footprint cell, an absent cell counting as [z_layers] primitive
    values. *)
Definition footprint_values (s : IMPAaCS) : list np_float :=
  concat (map (fun c : Q * Q =>
                 match grid_cell_state s !! grid_cell_id_of c.1 c.2 with
                 | Some col => slice_to (z_layers s) col
                 | None => replicate (Z.to_nat (z_layers s)) (Fin (primitive_initial_state s))
                 end)
              (impacted_grid_cells s)).

Definition footprint_mean (s : IMPAaCS) : np_float := np_mean (footprint_values s).



(** The sum [get_average_target] accumulates over the footprint, and the
    NumPy value of the term of one cell. *)
Definition target_sum (s : IMPAaCS) : pyval :=
  fold_left (fun acc '(ilon, ilat) =>
      let grid_cell_id := grid_cell_id_of ilon ilat in
      match grid_cell_state s !! grid_cell_id with
      | Some column => py_add acc (NpNum (np_sum (slice_to (z_layers s) column)))
      | None => py_add acc (PyNum (primitive_initial_state s * inject_Z (z_layers s)))
      end) (impacted_grid_cells s) (PyNum 0).

Definition target_term (s : IMPAaCS) (c : Q * Q) : np_float :=
  match grid_cell_state s !! grid_cell_id_of c.1 c.2 with
  | Some column => np_sum (slice_to (z_layers s) column)
  | None => Fin (primitive_initial_state s * inject_Z (z_layers s))
  end.


(** ** Notions used for the further properties *)

(** [x] is strictly inside the interval [lims]. *)
Definition strictly_inside (lims : Q * Q) (x : Q) : Prop :=
  (fst lims < x /\ x < snd lims)%Q.

(** No two entries of the list are equal as numbers. *)
Definition distinct_numbers (l : list Q) : Prop :=
  forall (i j : nat) (a b : Q), l !! i = Some a -> l !! j = Some b -> (a == b)%Q -> i = j.

(** [if x not in l: l.append(x)]. *)
Definition add_once (x : Q) (l : list Q) : list Q :=
  if py_in x l then l else l ++ [x].

(** The exception [state_dynamics] raises on a cell that is not in the
    store, from its two ranges and the outcome of the division for the
    upper value. *)
Definition missing_cell_exn (lower upper : list Z) (u : option pyval) : exn :=
  match lower, upper, u with
  | [], _ :: _, None => ZeroDivisionError
  | _, _, _ => KeyError
  end.

(** The four lists of the monitored cell's history have one entry more
    than [count_test_hits] (the entry the constructor puts in each). *)
Definition trace_in_step (t : Trace) : Prop :=
  Z.of_nat (length (test_time t)) = count_test_hits t + 1
  /\ Z.of_nat (length (impactors_at_test_cell t)) = count_test_hits t + 1
  /\ Z.of_nat (length (average_test_target_list t)) = count_test_hits t + 1
  /\ Z.of_nat (length (top_layer_at_test_cell t)) = count_test_hits t + 1.

(** The history [t'] continues the history [t]. *)
Definition trace_grows (t t' : Trace) : Prop :=
  count_test_hits t <= count_test_hits t'
  /\ test_time t `prefix_of` test_time t'
  /\ impactors_at_test_cell t `prefix_of` impactors_at_test_cell t'
  /\ average_test_target_list t `prefix_of` average_test_target_list t'
  /\ top_layer_at_test_cell t `prefix_of` top_layer_at_test_cell t'.

(** The keys of a list of cells. *)
Definition cell_keys (cells : list (Q * Q)) : list cell_id :=
  (fun c : Q * Q => grid_cell_id_of c.1 c.2) <$> cells.

(** The object as [update] has it when it calls [get_average_target]:
    time and dimensions set, the footprint found. *)
Definition at_footprint (distance : Q -> Q -> Q -> Q -> Q)
    (impact_loc : Q * Q) (d t : Q) (s : IMPAaCS) : IMPAaCS :=
  set_impacted_grid_cells
    (footprint distance impact_loc (10 * d / 2) (grid_points s))
    (with_dimensions d (set_sim_time t s)).


(** * Properties

    ** Facts about rounding and truncation *)

Lemma Qeq_bool_false_neq (a b : Q) : Qeq_bool a b = false -> ~ (a == b)%Q.
Proof. intros H E. apply Qeq_bool_iff in E. congruence. Qed.

Lemma Qltb_lt (a b : Q) : Qltb a b = true <-> (a < b)%Q.
Proof.
  unfold Qltb. rewrite negb_true_iff. split.
  - intros H. apply Qnot_le_lt. intros L. apply Qle_bool_iff in L. congruence.
  - intros H. destruct (Qle_bool b a) eqn:E; [|done].
    apply Qle_bool_iff in E. lra.
Qed.

Lemma Qltb_ge (a b : Q) : Qltb a b = false <-> (b <= a)%Q.
Proof.
  unfold Qltb. rewrite negb_false_iff. apply Qle_bool_iff.
Qed.

Lemma round_half_even_comp (x y : Q) : (x == y)%Q -> round_half_even x = round_half_even y.
Proof.
  intros E. unfold round_half_even.
  rewrite (Qfloor_comp _ _ E).
  assert (E2 : (x - inject_Z (Qfloor y) == y - inject_Z (Qfloor y))%Q) by (rewrite E; reflexivity).
  rewrite (Qcompare_comp _ _ E2 (1#2) (1#2)); [done | reflexivity].
Qed.

Lemma round_half_even_bounds (x : Q) :
  (inject_Z (round_half_even x) - (1 # 2) <= x <= inject_Z (round_half_even x) + (1 # 2))%Q.
Proof.
  unfold round_half_even.
  pose proof (Qfloor_le x) as Hl. pose proof (Qlt_floor x) as Hu.
  rewrite inject_Z_plus in Hu. change (inject_Z 1) with 1%Q in Hu.
  destruct (Qcompare_spec (x - inject_Z (Qfloor x)) (1 # 2)) as [E|L|G].
  - destruct (Z.even (Qfloor x)); rewrite ?inject_Z_plus; change (inject_Z 1) with 1%Q; lra.
  - lra.
  - rewrite inject_Z_plus. change (inject_Z 1) with 1%Q. lra.
Qed.

Lemma round_half_even_inject_Z (n : Z) : round_half_even (inject_Z n) = n.
Proof.
  unfold round_half_even. rewrite Qfloor_Z.
  destruct (Qcompare_spec (inject_Z n - inject_Z n) (1 # 2)) as [E|L|G]; [lra | done | lra].
Qed.

Lemma inject_Z_le_inv (a b : Z) : (inject_Z a <= inject_Z b)%Q -> a <= b.
Proof. rewrite <- Zle_Qle. done. Qed.

Lemma round_half_even_le (x : Q) (n : Z) : (x <= inject_Z n)%Q -> round_half_even x <= n.
Proof.
  intros H. pose proof (round_half_even_bounds x) as [B _].
  assert (L : (inject_Z (round_half_even x) < inject_Z (n + 1))%Q).
  { rewrite inject_Z_plus. change (inject_Z 1) with 1%Q. lra. }
  rewrite <- Zlt_Qlt in L. lia.
Qed.

Lemma round_half_even_ge (x : Q) (n : Z) : (inject_Z n <= x)%Q -> n <= round_half_even x.
Proof.
  intros H. pose proof (round_half_even_bounds x) as [_ B].
  assert (L : (inject_Z (n - 1) < inject_Z (round_half_even x))%Q).
  { unfold Z.sub. rewrite inject_Z_plus, inject_Z_opp. change (inject_Z 1) with 1%Q. lra. }
  rewrite <- Zlt_Qlt in L. lia.
Qed.

Lemma py_int_round2 (x : Q) : py_int (py_round2 x) = Z.quot (round_half_even (x * 100)) 100.
Proof.
  unfold py_int, py_round2. cbn [Qdiv Qmult Qinv Qnum Qden inject_Z].
  simpl. rewrite Z.mul_1_r. reflexivity.
Qed.

Lemma split_index_range (f : Q) (m : Z) :
  (0 <= f <= 1)%Q ->
  (0 <= m -> 0 <= split_index f m <= m) /\ (m <= 0 -> m <= split_index f m <= 0).
Proof.
  intros [Hf0 Hf1]. unfold split_index. rewrite py_int_round2.
  set (k := round_half_even (f * inject_Z m * 100)).
  split; intros Hm.
  - assert (0 <= inject_Z m)%Q by (rewrite (Zle_Qle 0 m) in Hm; exact Hm).
    assert (H0 : 0 <= k).
    { apply round_half_even_ge. change (inject_Z 0) with 0%Q. nra. }
    assert (H1 : k <= 100 * m).
    { apply round_half_even_le. rewrite inject_Z_mult. change (inject_Z 100) with 100%Q. nra. }
    split; [apply Z.quot_pos; lia|].
    apply Z.quot_le_upper_bound; lia.
  - assert (inject_Z m <= 0)%Q by (rewrite (Zle_Qle m 0) in Hm; exact Hm).
    assert (H0 : k <= 0).
    { apply round_half_even_le. change (inject_Z 0) with 0%Q. nra. }
    assert (H1 : 100 * m <= k).
    { apply round_half_even_ge. rewrite inject_Z_mult. change (inject_Z 100) with 100%Q. nra. }
    rewrite <- (Z.opp_involutive k), Z.quot_opp_l by lia.
    assert (0 <= - k ÷ 100) by (apply Z.quot_pos; lia).
    assert (- k ÷ 100 <= - m) by (apply Z.quot_le_upper_bound; lia).
    lia.
Qed.


(** ** The monad of methods *)

Lemma bind_get_self {B : Type} (f : IMPAaCS -> Py B) (s : IMPAaCS) :
  bind get_self f s = f s s.
Proof. reflexivity. Qed.

Lemma bind_modify {B : Type} (g : IMPAaCS -> IMPAaCS) (f : unit -> Py B) (s : IMPAaCS) :
  bind (modify g) f s = f tt (g s).
Proof. reflexivity. Qed.

Lemma seq_modify {B : Type} (g : IMPAaCS -> IMPAaCS) (k : Py B) (s : IMPAaCS) :
  (modify g ;; k) s = k (g s).
Proof. reflexivity. Qed.

Lemma py_div_run (a b : Q) (s : IMPAaCS) :
  py_div a b s = if Qeq_bool b 0 then (s, Raise ZeroDivisionError) else (s, Ok (a / b)%Q).
Proof. unfold py_div. destruct (Qeq_bool b 0); reflexivity. Qed.

Lemma truediv_fst (a b : pyval) (s : IMPAaCS) : fst (truediv a b s) = s.
Proof. unfold truediv. destruct (py_truediv a b); reflexivity. Qed.

Lemma getitem_fst (key : cell_id) (i : Z) (s : IMPAaCS) : fst (getitem key i s) = s.
Proof.
  unfold getitem. rewrite bind_get_self.
  destruct (grid_cell_state s !! key) as [col|]; [|reflexivity].
  destruct (py_index (length col) i) as [n|]; [|reflexivity].
  destruct (col !! n); reflexivity.
Qed.

Lemma np_ones_fst (n : Z) (s : IMPAaCS) : fst (np_ones n s) = s.
Proof. unfold np_ones. destruct (n <? 0); reflexivity. Qed.

Section Keeps.

Context (I : IMPAaCS -> Prop) (R : IMPAaCS -> IMPAaCS -> Prop).
Hypothesis R_refl : forall s, R s s.
Hypothesis R_trans : forall a b c, R a b -> R b c -> R a c.

Lemma keeps_pure {A : Type} (m : Py A) : (forall s, fst (m s) = s) -> keeps I R m.
Proof. intros H s Hs. rewrite H. auto. Qed.

Lemma keeps_ret {A : Type} (a : A) : keeps I R (mret a : Py A).
Proof. apply keeps_pure. reflexivity. Qed.

Lemma keeps_raise {A : Type} (e : exn) : keeps I R (raise e : Py A).
Proof. apply keeps_pure. reflexivity. Qed.

Lemma keeps_bind {A B : Type} (m : Py A) (f : A -> Py B) :
  keeps I R m -> (forall a, keeps I R (f a)) -> keeps I R (bind m f).
Proof.
  intros Hm Hf s Hs. unfold bind.
  destruct (Hm s Hs) as [I1 R1].
  destruct (m s) as [s1 [a|e]]; simpl in *.
  - destruct (Hf a s1 I1) as [I2 R2]. eauto.
  - auto.
Qed.

Lemma keeps_seq {A B : Type} (m : Py A) (k : Py B) :
  keeps I R m -> keeps I R k -> keeps I R (m ;; k).
Proof. intros Hm Hk. apply (keeps_bind m (fun _ => k)); auto. Qed.

Lemma keeps_get_self {B : Type} (f : IMPAaCS -> Py B) :
  (forall self, I self -> keeps I R (f self)) -> keeps I R (bind get_self f).
Proof. intros H s Hs. rewrite bind_get_self. apply H; assumption. Qed.

Lemma keeps_py_div {B : Type} (a b : Q) (f : Q -> Py B) :
  (Qeq_bool b 0 = false -> keeps I R (f (a / b)%Q)) -> keeps I R (bind (py_div a b) f).
Proof.
  intros H s Hs. unfold bind. rewrite py_div_run.
  destruct (Qeq_bool b 0); [simpl; auto|]. apply H; auto.
Qed.

Lemma keeps_for {B : Type} (l : list B) (body : B -> Py unit) :
  (forall x, x ∈ l -> keeps I R (body x)) -> keeps I R (for_ l body).
Proof.
  induction l as [|x l IH]; intros H; simpl.
  - apply keeps_ret.
  - apply keeps_seq.
    + apply H. left.
    + apply IH. intros y Hy. apply H. right. exact Hy.
Qed.

Lemma keeps_modify (g : IMPAaCS -> IMPAaCS) :
  (forall s, I s -> I (g s) /\ R s (g s)) -> keeps I R (modify g).
Proof. intros H s Hs. apply H, Hs. Qed.

End Keeps.

(** ** The frame of the store *)

Lemma store_frame_refl (P : cell_id -> nat -> Prop) (s : IMPAaCS) : store_frame P s s.
Proof.
  intros k. destruct (grid_cell_state s !! k); constructor. auto.
Qed.

Lemma store_frame_trans (P : cell_id -> nat -> Prop) (a b c : IMPAaCS) :
  store_frame P a b -> store_frame P b c -> store_frame P a c.
Proof.
  intros H1 H2 k. specialize (H1 k). specialize (H2 k).
  destruct H1 as [x y [L1 V1]|]; inversion H2 as [y' z [L2 V2]|]; subst; constructor.
  split; [congruence|]. intros n Hn. rewrite V2, V1; auto.
Qed.

Lemma store_frame_weaken (P P' : cell_id -> nat -> Prop) (s s' : IMPAaCS) :
  (forall k n, P k n -> P' k n) -> store_frame P s s' -> store_frame P' s s'.
Proof.
  intros HP H k. specialize (H k).
  destruct H as [x y [L V]|]; constructor.
  split; [exact L|]. intros n Hn. apply V. intros HPn. apply Hn, HP, HPn.
Qed.

Lemma store_frame_same_store (P : cell_id -> nat -> Prop) (s s' : IMPAaCS) :
  grid_cell_state s' = grid_cell_state s -> store_frame P s s'.
Proof.
  intros E k. rewrite E. destruct (grid_cell_state s !! k); constructor. auto.
Qed.

(** Nothing writable: the store is the same. *)
Lemma store_frame_nothing (s s' : IMPAaCS) :
  store_frame (fun _ _ => False) s s' -> grid_cell_state s' = grid_cell_state s.
Proof.
  intros H. apply map_eq. intros k. specialize (H k).
  destruct H as [c c' [L V]|]; [|reflexivity].
  f_equal. apply list_eq. intros n. apply V. tauto.
Qed.

Lemma store_frame_dom (P : cell_id -> nat -> Prop) (s s' : IMPAaCS) :
  store_frame P s s' -> dom (grid_cell_state s') = dom (grid_cell_state s).
Proof.
  intros H. apply set_eq. intros k. rewrite !elem_of_dom. specialize (H k).
  destruct H; split; intros [? ?]; try discriminate; eauto.
Qed.

Section FrameOf.

Context (I : IMPAaCS -> Prop) (P : cell_id -> nat -> Prop).
Hypothesis I_store : forall v s, I s -> I (set_grid_cell_state v s).

Lemma keeps_setitem (key : cell_id) (i : Z) (v : np_float) :
  (forall len n, py_index len i = Some n -> P key n) ->
  keeps I (store_frame P) (setitem key i v).
Proof.
  intros HP s Hs. unfold setitem. rewrite bind_get_self.
  destruct (grid_cell_state s !! key) as [col|] eqn:Hcol;
    [|simpl; split; [assumption | apply store_frame_refl]].
  destruct (py_index (length col) i) as [n|] eqn:Hi;
    [|simpl; split; [assumption | apply store_frame_refl]].
  simpl. split; [apply I_store, Hs|].
  intros k. simpl. destruct (decide (k = key)) as [->|Hne].
  - rewrite lookup_insert_eq, Hcol. constructor. split.
    + apply length_insert.
    + intros m Hm. apply list_lookup_insert_ne. intros ->. apply Hm. eapply HP, Hi.
  - rewrite lookup_insert_ne by congruence.
    destruct (grid_cell_state s !! k); constructor. auto.
Qed.

Lemma keeps_getitem {B : Type} (key : cell_id) (i : Z) (f : np_float -> Py B) :
  (forall x, keeps I (store_frame P) (f x)) ->
  keeps I (store_frame P) (bind (getitem key i) f).
Proof.
  intros H. apply keeps_bind; [apply store_frame_trans | | exact H].
  apply keeps_pure; [apply store_frame_refl | apply getitem_fst].
Qed.

Lemma keeps_truediv {B : Type} (a b : pyval) (f : pyval -> Py B) :
  (forall x, keeps I (store_frame P) (f x)) ->
  keeps I (store_frame P) (bind (truediv a b) f).
Proof.
  intros H. apply keeps_bind; [apply store_frame_trans | | exact H].
  apply keeps_pure; [apply store_frame_refl | apply truediv_fst].
Qed.

End FrameOf.

(** ** Indices and ranges *)

Lemma py_index_nonneg (len : nat) (i : Z) (n : nat) :
  0 <= i -> py_index len i = Some n -> n = Z.to_nat i /\ i < Z.of_nat len.
Proof.
  intros Hi. unfold py_index.
  destruct (0 <=? i) eqn:E0; [|lia].
  destruct (i <? Z.of_nat len) eqn:E1; simpl.
  - intros [= <-]. lia.
  - destruct (- Z.of_nat len <=? i); simpl; [|discriminate].
    destruct (i <? 0) eqn:E2; [lia | discriminate].
Qed.

Lemma py_index_in_range (len : nat) (i : Z) :
  0 <= i < Z.of_nat len -> py_index len i = Some (Z.to_nat i).
Proof.
  intros Hi. unfold py_index.
  destruct (0 <=? i) eqn:E0; [|lia].
  destruct (i <? Z.of_nat len) eqn:E1; [reflexivity | lia].
Qed.

Lemma py_index_lt (len : nat) (i : Z) (n : nat) :
  py_index len i = Some n -> (n < len)%nat.
Proof.
  unfold py_index.
  destruct ((0 <=? i) && (i <? Z.of_nat len)) eqn:E.
  - intros [= <-]. lia.
  - destruct ((- Z.of_nat len <=? i) && (i <? 0)) eqn:E'; [|discriminate].
    intros [= <-]. lia.
Qed.

Lemma elem_of_py_range (a b i : Z) : i ∈ py_range a b <-> a <= i < b.
Proof. unfold py_range. rewrite elem_of_seqZ. lia. Qed.

Lemma elem_of_lower_layer (f : Q) (m i : Z) :
  i ∈ lower_layer f m <-> split_index f m <= i < m.
Proof. apply elem_of_py_range. Qed.

Lemma elem_of_upper_layer (f : Q) (m i : Z) :
  i ∈ upper_layer f m <-> 0 <= i < split_index f m.
Proof. apply elem_of_py_range. Qed.

(** ** What each method leaves alone *)

Section MethodFrames.

Context (p : Params) (I : IMPAaCS -> Prop) (P : cell_id -> nat -> Prop).
Hypothesis I_params : forall s, I s -> params s = p.
Hypothesis I_store : forall v s, I s -> I (set_grid_cell_state v s).
Hypothesis I_trace : forall v s, I s -> I (set_trace v s).

Let frame_refl := store_frame_refl P.
Let frame_trans := store_frame_trans P.

Lemma state_dynamics_keeps (d : Q) (key : cell_id) :
  (forall i len n,
      i ∈ lower_layer (fraction_upper_layer p) (melt_layers_of p d)
      \/ i ∈ upper_layer (fraction_upper_layer p) (melt_layers_of p d)
      \/ i ∈ py_range 0 (melt_layers_of p d) ->
      py_index len i = Some n -> P key n) ->
  keeps I (store_frame P) (state_dynamics d key).
Proof.
  intros HP. unfold state_dynamics.
  apply keeps_get_self. intros self Hself. apply I_params in Hself.
  rewrite Hself. fold (melt_layers_of p d).
  apply keeps_py_div; [assumption|]. intros _.
  fold (melt_layers_of p d).
  apply keeps_py_div; [assumption|]. intros _.
  apply keeps_seq; [assumption| |].
  { apply keeps_for; [assumption..|]. intros i Hi.
    apply keeps_setitem; [assumption|]. intros len n. apply HP. auto. }
  apply keeps_seq; [assumption| |].
  { apply keeps_for; [assumption..|]. intros i Hi.
    apply keeps_truediv. intros v.
    apply keeps_setitem; [assumption|]. intros len n. apply HP. auto. }
  apply keeps_getitem. intros wt.
  apply keeps_seq; [assumption| |].
  { apply keeps_for; [assumption..|]. intros i Hi.
    apply keeps_truediv. intros v.
    apply keeps_setitem; [assumption|]. intros len n. apply HP. auto. }
  apply keeps_for; [assumption..|]. intros i Hi.
  apply keeps_getitem. intros x.
  apply keeps_setitem; [assumption|]. intros len n. apply HP. auto.
Qed.

Lemma test_one_grid_cell_keeps (key : cell_id) (d : Q) :
  keeps I (store_frame P) (test_one_grid_cell key d).
Proof.
  unfold test_one_grid_cell. destruct (decide (key = impact_test_id)).
  - apply keeps_seq; [assumption| |].
    + apply keeps_modify. intros s Hs. split; [apply I_trace, Hs|].
      apply store_frame_same_store. reflexivity.
    + apply keeps_getitem. intros top.
      apply keeps_modify. intros s Hs. split; [apply I_trace, Hs|].
      apply store_frame_same_store. reflexivity.
  - apply keeps_ret. assumption.
Qed.

End MethodFrames.

Section UpdateFrames.

Context (p : Params) (I : IMPAaCS -> Prop) (P : cell_id -> nat -> Prop).
Hypothesis I_params : forall s, I s -> params s = p.
Hypothesis I_store : forall v s, I s -> I (set_grid_cell_state v s).
Hypothesis I_trace : forall v s, I s -> I (set_trace v s).
Hypothesis I_average : forall v s, I s -> I (set_average_target v s).

Lemma mix_cells_keeps (d : Q) (cells : list (Q * Q)) :
  (forall c i len n, c ∈ cells ->
      i ∈ lower_layer (fraction_upper_layer p) (melt_layers_of p d)
      \/ i ∈ upper_layer (fraction_upper_layer p) (melt_layers_of p d)
      \/ i ∈ py_range 0 (melt_layers_of p d) ->
      py_index len i = Some n -> P (grid_cell_id_of c.1 c.2) n) ->
  keeps I (store_frame P) (mix_cells d cells).
Proof.
  intros HP. unfold mix_cells.
  apply keeps_for; [apply store_frame_refl | apply store_frame_trans |].
  intros [ilon ilat] Hc.
  apply keeps_seq; [apply store_frame_trans | |].
  - apply (state_dynamics_keeps p); try assumption.
    intros i len n Hi Hn. apply (HP (ilon, ilat) i len n Hc Hi Hn).
  - apply test_one_grid_cell_keeps; assumption.
Qed.

Lemma get_average_target_keeps (d : Q) :
  keeps I (store_frame P) (get_average_target d).
Proof.
  unfold get_average_target.
  apply keeps_get_self. intros self _.
  apply keeps_truediv. intros v.
  apply keeps_modify. intros s Hs. split; [apply I_average, Hs|].
  apply store_frame_same_store. reflexivity.
Qed.

End UpdateFrames.

(** ** The steps of [update] *)

Section UpdateSteps.

Variable distance : Q -> Q -> Q -> Q -> Q.

Lemma find_the_grid_run (impact_loc : Q * Q) (s : IMPAaCS) :
  find_the_grid distance impact_loc s =
  (set_impacted_grid_cells
     (footprint distance impact_loc (crator_radius s) (grid_points s)) s, Ok tt).
Proof.
  unfold find_the_grid, footprint.
  rewrite seq_modify, bind_get_self. cbn [crator_radius set_impacted_grid_cells params].
  change (grid_points (set_impacted_grid_cells [] s)) with (grid_points s).
  destruct (scan_grid distance impact_loc (crator_radius s) (grid_points s))
    as [Dmin impacted].
  rewrite seq_modify.
  destruct (Z.of_nat (length impacted) <? 1); [|reflexivity].
  destruct (Qltb Dmin 30); reflexivity.
Qed.

Lemma impact_dimensions_run (d : Q) (s : IMPAaCS) :
  impact_dimensions d s =
  if Qeq_bool (z_discretized_km s) 0
  then (set_crator_radius (10 * d / 2) (set_crator_diameter (10 * d) s),
        Raise ZeroDivisionError)
  else (with_dimensions d s, Ok tt).
Proof.
  unfold impact_dimensions, with_dimensions.
  rewrite !seq_modify, bind_get_self. unfold bind. rewrite py_div_run.
  cbn [z_discretized_km params set_crator_radius set_crator_diameter crator_diameter].
  destruct (Qeq_bool (z_discretized_km s) 0); reflexivity.
Qed.

Lemma update_run (impact_loc : Q * Q) (d t : Q) (s : IMPAaCS) :
  update distance impact_loc d t s =
  if Qeq_bool (z_discretized_km s) 0
  then (set_crator_radius (10 * d / 2) (set_crator_diameter (10 * d) (set_sim_time t s)),
        Raise ZeroDivisionError)
  else
    let s3 :=
      set_impacted_grid_cells
        (footprint distance impact_loc (10 * d / 2) (grid_points s))
        (with_dimensions d (set_sim_time t s)) in
    if 0 <? Z.of_nat (length (impacted_grid_cells s3))
    then (get_average_target d ;; loop_impact_grid d) s3
    else (s3, Ok tt).
Proof.
  unfold update. rewrite seq_modify.
  change (impact_dimensions d;; find_the_grid distance impact_loc;; ?k)
    with (bind (impact_dimensions d) (fun _ => find_the_grid distance impact_loc;; k)).
  unfold bind at 1. rewrite impact_dimensions_run.
  change (z_discretized_km (set_sim_time t s)) with (z_discretized_km s).
  destruct (Qeq_bool (z_discretized_km s) 0); [reflexivity|].
  change (find_the_grid distance impact_loc;; ?k)
    with (bind (find_the_grid distance impact_loc) (fun _ => k)).
  unfold bind at 1. rewrite find_the_grid_run.
  rewrite bind_get_self.
  change (crator_radius (with_dimensions d (set_sim_time t s))) with (10 * d / 2)%Q.
  change (grid_points (with_dimensions d (set_sim_time t s))) with (grid_points s).
  cbv zeta.
  match goal with |- context [0 <? ?n] => destruct (0 <? n) end; reflexivity.
Qed.

End UpdateSteps.

Section EventFrame.

Variable distance : Q -> Q -> Q -> Q -> Q.

(** Where one event may write: the layers of the footprint's cells that
    the three ranges of [state_dynamics] reach. *)
Lemma update_keeps (impact_loc : Q * Q) (d t : Q) (s : IMPAaCS)
    (P : cell_id -> nat -> Prop) :
  (forall c i len n,
      c ∈ footprint distance impact_loc (10 * d / 2) (grid_points s) ->
      i ∈ lower_layer (fraction_upper_layer s) (melt_layers_of s d)
      \/ i ∈ upper_layer (fraction_upper_layer s) (melt_layers_of s d)
      \/ i ∈ py_range 0 (melt_layers_of s d) ->
      py_index len i = Some n -> P (grid_cell_id_of c.1 c.2) n) ->
  let s' := fst (update distance impact_loc d t s) in
  params s' = params s /\ store_frame P s s' /\
  (Qeq_bool (z_discretized_km s) 0 = false ->
   impacted_grid_cells s' = footprint distance impact_loc (10 * d / 2) (grid_points s)).
Proof.
  intros HP. cbv zeta. rewrite update_run.
  destruct (Qeq_bool (z_discretized_km s) 0) eqn:Hz.
  { simpl. split; [reflexivity|]. split; [|discriminate].
    apply store_frame_same_store. reflexivity. }
  cbv zeta.
  set (fp := footprint distance impact_loc (10 * d / 2) (grid_points s)) in *.
  set (s3 := set_impacted_grid_cells fp (with_dimensions d (set_sim_time t s))).
  assert (K : keeps (fun x => params x = params s /\ impacted_grid_cells x = fp)
                    (store_frame P) (get_average_target d ;; loop_impact_grid d)).
  { apply keeps_seq; [apply store_frame_trans | |].
    - apply get_average_target_keeps. intros v x [? ?]. split; assumption.
    - unfold loop_impact_grid. apply keeps_get_self. intros self [Hp Hf].
      rewrite Hf. apply (mix_cells_keeps (params s)).
      + intros x [? ?]. assumption.
      + intros v x [? ?]. split; assumption.
      + intros v x [? ?]. split; assumption.
      + exact HP. }
  destruct (0 <? Z.of_nat (length (impacted_grid_cells s3))).
  - destruct (K s3) as [[Hp Hf] Hfr]; [split; reflexivity|].
    split; [exact Hp|]. split; [|intros _; exact Hf].
    eapply store_frame_trans; [|exact Hfr].
    apply store_frame_same_store. reflexivity.
  - simpl. split; [reflexivity|]. split; [|reflexivity].
    apply store_frame_same_store. reflexivity.
Qed.

Lemma run_events_keeps (events : list (Q * Q * Q * Q)) (s : IMPAaCS) :
  let s' := run_events distance events s in
  params s' = params s /\ store_frame (fun _ _ => True) s s'.
Proof.
  revert s. induction events as [|[[loc d] t] events IH]; intros s; simpl.
  - split; [reflexivity | apply store_frame_refl].
  - destruct (update_keeps loc d t s (fun _ _ => True)) as (Hp & Hf & _); [auto|].
    destruct (IH (fst (update distance loc d t s))) as [Hp' Hf'].
    split; [congruence|]. eapply store_frame_trans; eassumption.
Qed.

End EventFrame.

(** ** Ranges of the layer mixer *)

Lemma melt_layers_of_zero (p : Params) : melt_layers_of p 0 = 0.
Proof. unfold melt_layers_of, py_int. simpl. reflexivity. Qed.

Lemma split_index_zero (f : Q) : split_index f 0 = 0.
Proof.
  unfold split_index. rewrite py_int_round2.
  rewrite (round_half_even_comp _ (inject_Z 0)).
  - rewrite round_half_even_inject_Z. reflexivity.
  - change (inject_Z 0) with 0%Q. ring.
Qed.

(** With the upper fraction between 0 and 1, the three ranges lie inside
    [0, melt_layers). *)
Lemma mixer_ranges_within (f : Q) (m i : Z) :
  (0 <= f <= 1)%Q ->
  i ∈ lower_layer f m \/ i ∈ upper_layer f m \/ i ∈ py_range 0 m ->
  0 <= i < m.
Proof.
  intros Hf. rewrite elem_of_lower_layer, elem_of_upper_layer, elem_of_py_range.
  destruct (split_index_range f m Hf) as [Hpos Hneg].
  destruct (Z.le_gt_cases 0 m) as [Hm|Hm].
  - specialize (Hpos Hm). lia.
  - assert (m <= 0) as Hm' by lia. specialize (Hneg Hm'). lia.
Qed.


Lemma store_frame_column (P : cell_id -> nat -> Prop) (s s' : IMPAaCS)
    (k : cell_id) (col : list np_float) :
  store_frame P s s' -> grid_cell_state s !! k = Some col ->
  exists col', grid_cell_state s' !! k = Some col' /\ length col' = length col
               /\ forall n, ~ P k n -> col' !! n = col !! n.
Proof.
  intros H Hcol. specialize (H k). rewrite Hcol in H.
  inversion H as [c c' [L V]|]; subst. eauto.
Qed.




(** C5. Zero-diameter no-op.  From every object, for every impact
    location and simulation time, an [update] with impactor diameter 0
    leaves the Cell State Store as it was: [melt_layers] is 0 and no layer
    of any column is written. *)
Theorem zero_diameter_no_op (distance : Q -> Q -> Q -> Q -> Q) (s : IMPAaCS)
    (impact_loc : Q * Q) (t : Q) :
  melt_layers_of s 0 = 0
  /\ grid_cell_state (fst (update distance impact_loc 0 t s)) = grid_cell_state s.
Proof.
  split; [apply melt_layers_of_zero|].
  apply store_frame_nothing.
  destruct (update_keeps distance impact_loc 0 t s (fun _ _ => False)) as (_ & H & _);
    [|exact H].
  intros c i len n _ Hi _.
  rewrite elem_of_lower_layer, elem_of_upper_layer, elem_of_py_range in Hi.
  rewrite melt_layers_of_zero, split_index_zero in Hi. lia.
Qed.

(** ** Construction *)

Lemma set_grid_cell_state_id (s : IMPAaCS) : set_grid_cell_state (grid_cell_state s) s = s.
Proof. destruct s. reflexivity. Qed.

Lemma py_int_nonneg (q : Q) : (0 <= q)%Q -> py_int q = Qfloor q /\ 0 <= py_int q.
Proof.
  intros H. destruct q as [n d]. unfold py_int, Qfloor. simpl.
  assert (0 <= n) by (unfold Qle in H; simpl in H; lia).
  rewrite Z.quot_div_nonneg by lia. split; [reflexivity|].
  apply Z.div_pos; lia.
Qed.

Lemma fresh_column_length (total_layers : Z) (primitive : Q) :
  length (fresh_column total_layers primitive) = Z.to_nat total_layers.
Proof. unfold fresh_column. rewrite length_map, length_replicate. reflexivity. Qed.

Lemma prepared_lookup (column : list np_float) (cells : list (Q * Q))
    (store : gmap cell_id (list np_float)) (k : cell_id) :
  prepared column cells store !! k =
  if decide (k ∈ (fun c : Q * Q => grid_cell_id_of c.1 c.2) <$> cells)
  then Some column else store !! k.
Proof.
  revert store. induction cells as [|c cells IH]; intros store.
  - rewrite decide_False; [reflexivity | apply not_elem_of_nil].
  - unfold prepared in *. cbn [foldl]. rewrite IH, fmap_cons.
    destruct (decide (k ∈ (fun c : Q * Q => grid_cell_id_of c.1 c.2) <$> cells))
      as [Hin|Hnin].
    + rewrite decide_True; [reflexivity | right; exact Hin].
    + destruct (decide (k = grid_cell_id_of c.1 c.2)) as [->|Hne].
      * rewrite lookup_insert_eq. rewrite decide_True; [reflexivity | left].
      * rewrite lookup_insert_ne by congruence.
        rewrite decide_False; [reflexivity|].
        intros Hin. apply elem_of_cons in Hin as [?|?]; contradiction.
Qed.

Lemma np_ones_run (n : Z) (s : IMPAaCS) :
  0 <= n -> np_ones n s = (s, Ok (replicate (Z.to_nat n) (Fin 1))).
Proof. intros H. unfold np_ones. destruct (n <? 0) eqn:E; [lia | reflexivity]. Qed.

Lemma state_prep_loop_run (total_layers : Z) (primitive : Q) (cells : list (Q * Q))
    (s : IMPAaCS) :
  0 <= total_layers ->
  for_ cells (fun '(ilon, ilat) =>
    let grid_cell_id := grid_cell_id_of ilon ilat in
    let* ones := np_ones total_layers in
    let column := map (fun o => np_mul o (Fin primitive)) ones in
    modify (fun s => set_grid_cell_state (<[grid_cell_id := column]> (grid_cell_state s)) s)) s
  = (set_grid_cell_state
       (prepared (fresh_column total_layers primitive) cells (grid_cell_state s)) s, Ok tt).
Proof.
  intros Ht. revert s. induction cells as [|[ilon ilat] cells IH]; intros s.
  - simpl. rewrite set_grid_cell_state_id. reflexivity.
  - cbn [for_].
    match goal with
    | |- (?m ;; ?k) s = _ => change ((m ;; k) s) with (bind m (fun _ => k) s)
    end.
    unfold bind at 1. unfold bind at 1. rewrite np_ones_run by exact Ht.
    cbn [modify]. rewrite IH. reflexivity.
Qed.

Lemma state_prep_run (s : IMPAaCS) :
  (0 <= max_depth_of_impact_melt s)%Q -> (0 < z_discretized_km s)%Q ->
  state_prep s =
  (set_grid_cell_state
     (prepared (fresh_column (Qfloor (max_depth_of_impact_melt s / z_discretized_km s))
                             (primitive_initial_state s))
               (grid_points s) (grid_cell_state s)) s, Ok tt)
  /\ 0 <= Qfloor (max_depth_of_impact_melt s / z_discretized_km s).
Proof.
  intros Hd Hz. unfold state_prep. rewrite bind_get_self.
  unfold bind at 1. rewrite py_div_run.
  destruct (Qeq_bool (z_discretized_km s) 0) eqn:E.
  { apply Qeq_bool_iff in E. lra. }
  assert (Hq : (0 <= max_depth_of_impact_melt s / z_discretized_km s)%Q).
  { apply Qle_shift_div_l; [exact Hz | lra]. }
  destruct (py_int_nonneg _ Hq) as [Hint Hpos].
  rewrite state_prep_loop_run by exact Hpos.
  rewrite Hint in *. split; [reflexivity | exact Hpos].
Qed.

(** C8. Column-length invariant.  For a non-negative maximum depth and a
    positive layer thickness the constructor returns, and after it and
    after any finite sequence of [update] events (returning or raising)
    the working grid is the same, the store has exactly the keys of the
    working grid's cells, and the column of every cell of the working grid
    has length [floor(max_depth / layer_thickness)]. *)
Theorem column_length_invariant (distance : Q -> Q -> Q -> Q -> Q)
    (londim latdim : list Q)
    (max_depth primitive fraction_upper target upper z_km proportion t0 : Q)
    (lon_lims lat_lims : Q * Q) (events : list (Q * Q * Q * Q)) :
  (0 <= max_depth)%Q -> (0 < z_km)%Q ->
  let r := init londim latdim max_depth primitive fraction_upper target upper z_km
                proportion t0 lon_lims lat_lims in
  let s := run_events distance events (fst r) in
  snd r = Ok tt
  /\ grid_points s = grid_points (fst r)
  /\ dom (grid_cell_state s) = dom (grid_cell_state (fst r))
  /\ (forall k, k ∈ dom (grid_cell_state s) <->
                exists c, c ∈ grid_points s /\ k = grid_cell_id_of c.1 c.2)
  /\ forall c, c ∈ grid_points s ->
       exists col, grid_cell_state s !! grid_cell_id_of c.1 c.2 = Some col
                   /\ Z.of_nat (length col) = Qfloor (max_depth / z_km).
Proof.
  intros Hd Hz. cbv zeta. unfold init.
  match goal with
  | |- context [state_prep ?s0] =>
      destruct (state_prep_run s0 Hd Hz) as [Hrun Hpos]; rewrite !Hrun; clear Hrun;
      set (s1 := set_grid_cell_state _ s0)
  end.
  destruct (run_events_keeps distance events s1) as [Hp Hfr].
  cbn [fst snd].
  set (s := run_events distance events s1) in *.
  assert (Hg : grid_points s = grid_points s1) by (unfold grid_points; rewrite Hp; reflexivity).
  assert (Hlk : forall k, grid_cell_state s1 !! k =
            if decide (k ∈ (fun c : Q * Q => grid_cell_id_of c.1 c.2) <$> grid_points s1)
            then Some (fresh_column (Qfloor (max_depth / z_km)) primitive) else None).
  { intros k. unfold s1. cbn [grid_cell_state set_grid_cell_state].
    rewrite prepared_lookup. reflexivity. }
  assert (Hdom : dom (grid_cell_state s) = dom (grid_cell_state s1))
    by (eapply store_frame_dom; exact Hfr).
  split; [reflexivity|]. split; [exact Hg|]. split; [exact Hdom|]. split.
  - intros k. rewrite Hdom, elem_of_dom, Hlk, Hg.
    case_decide as Hin.
    + split; [|eauto]. intros _. apply list_elem_of_fmap in Hin as (c & -> & Hc). eauto.
    + split; [intros [? ?]; discriminate|].
      intros (c & Hc & ->). exfalso. apply Hin, list_elem_of_fmap. eauto.
  - intros c Hc. rewrite Hg in Hc.
    assert (Hk : grid_cell_state s1 !! grid_cell_id_of c.1 c.2
                 = Some (fresh_column (Qfloor (max_depth / z_km)) primitive)).
    { rewrite Hlk, decide_True; [reflexivity|]. apply list_elem_of_fmap. eauto. }
    destruct (store_frame_column _ _ _ _ _ Hfr Hk) as (col & H1 & H2 & _).
    exists col. split; [exact H1|].
    rewrite H2, fresh_column_length. apply Z2Nat.id. exact Hpos.
Qed.

(** ** The impact locator *)

Section LocatorFacts.

Variable distance : Q -> Q -> Q -> Q -> Q.
Variable impact_loc : Q * Q.

Let D := cell_distance distance impact_loc.

Lemma scan_grid_acc (radius : Q) (cells : list (Q * Q)) (m0 : Q) (acc : list (Q * Q)) :
  exists Dmin,
    fold_left (fun '(Dmin, impacted) '(ilon, ilat) =>
      let D := distance (fst impact_loc) ilat (snd impact_loc) ilon in
      (if Qltb D Dmin then D else Dmin,
       if Qle_bool D radius then impacted ++ [(ilon, ilat)] else impacted))
      cells (m0, acc)
    = (Dmin, acc ++ within_radius distance impact_loc radius cells)
    /\ (Dmin <= m0)%Q
    /\ (forall c, c ∈ cells -> Dmin <= D c)%Q
    /\ (Dmin = m0 \/ exists c, c ∈ cells /\ Dmin = D c).
Proof.
  revert m0 acc. induction cells as [|[ilon ilat] cells IH]; intros m0 acc.
  - exists m0. simpl. rewrite app_nil_r.
    repeat split; [lra | | left; reflexivity].
    intros c Hc. inversion Hc.
  - cbn [fold_left within_radius List.filter].
    change (cell_distance distance impact_loc (ilon, ilat))
      with (distance (fst impact_loc) ilat (snd impact_loc) ilon).
    set (d := distance (fst impact_loc) ilat (snd impact_loc) ilon).
    destruct (IH (if Qltb d m0 then d else m0)
                 (if Qle_bool d radius then acc ++ [(ilon, ilat)] else acc))
      as (Dmin & Hfold & Hle & Hall & Hatt).
    exists Dmin.
    assert (Hm : (Dmin <= m0 /\ Dmin <= d)%Q).
    { destruct (Qltb d m0) eqn:E.
      - apply Qltb_lt in E. lra.
      - apply Qltb_ge in E. lra. }
    split.
    { etransitivity; [exact Hfold|]. f_equal.
      fold (within_radius distance impact_loc radius cells).
      destruct (Qle_bool d radius); [rewrite <- app_assoc|]; reflexivity. }
    split; [tauto|]. split.
    { intros c Hc. apply elem_of_cons in Hc as [->|Hc]; [apply Hm | apply Hall, Hc]. }
    destruct Hatt as [->|(c & Hc & ->)].
    + destruct (Qltb d m0); [right; exists (ilon, ilat); split; [left | reflexivity] | left; reflexivity].
    + right. exists c. split; [right; exact Hc | reflexivity].
Qed.

Lemma scan_grid_spec (radius : Q) (cells : list (Q * Q)) :
  exists Dmin,
    scan_grid distance impact_loc radius cells
    = (Dmin, within_radius distance impact_loc radius cells)
    /\ (forall c, c ∈ cells -> Dmin <= D c)%Q
    /\ (Dmin = 10000000%Q \/ exists c, c ∈ cells /\ Dmin = D c).
Proof.
  destruct (scan_grid_acc radius cells 10000000%Q []) as (Dmin & H1 & _ & H3 & H4).
  exists Dmin. split; [exact H1 | auto].
Qed.




Lemma elem_of_within_radius (radius : Q) (cells : list (Q * Q)) (c : Q * Q) :
  c ∈ within_radius distance impact_loc radius cells <-> c ∈ cells /\ (D c <= radius)%Q.
Proof.
  unfold within_radius.
  rewrite (list_elem_of_In (List.filter _ _) c), filter_In, <- list_elem_of_In.
  rewrite Qle_bool_iff. reflexivity.
Qed.

End LocatorFacts.


(** ** Rebinning *)

Lemma re_bin_sio2_default (x : np_float) :
  re_bin_sio2 x 1 100 1 = Ok (re_bin_scan x 100 (seqZ 1 99)).
Proof. reflexivity. Qed.

Lemma Qceiling_le_iff (x : Q) (n : Z) : Qceiling x <= n <-> (x <= inject_Z n)%Q.
Proof.
  split; intros H.
  - pose proof (Qle_ceiling x). apply Qle_trans with (inject_Z (Qceiling x)); [assumption|].
    rewrite <- Zle_Qle. exact H.
  - pose proof (Qceiling_lt x) as Hlt.
    assert (L : (inject_Z (Qceiling x - 1) < inject_Z n)%Q) by lra.
    rewrite <- Zlt_Qlt in L. lia.
Qed.

(** The scan over the bins [a, a+1, ..., 99] when the bins below [a] have
    been passed and the value is below 100. *)
Lemma re_bin_scan_from (x : Q) (n : nat) (a : Z) :
  (x < 100)%Q -> a + Z.of_nat n = 100 -> 1 <= a ->
  a = 1 \/ (inject_Z (a - 1) < x)%Q ->
  re_bin_scan (Fin x) 100 (seqZ a (Z.of_nat n)) =
  if Qle_bool x 99 then Some (Z.max 1 (Qceiling x)) else None.
Proof.
  revert a. induction n as [|n IH]; intros a Hx Ha H1 Hlow.
  - simpl. assert (a = 100) as -> by lia.
    destruct Hlow as [?|Hlow]; [lia|].
    destruct (Qle_bool x 99) eqn:E; [|reflexivity].
    apply Qle_bool_iff in E. change (inject_Z (100 - 1)) with 99%Q in Hlow. lra.
  - rewrite seqZ_cons by lia. cbn [re_bin_scan np_leb np_geb].
    destruct (Qle_bool x (inject_Z a)) eqn:E.
    + apply Qle_bool_iff in E.
      assert (Hc : Qceiling x <= a) by (apply Qceiling_le_iff; exact E).
      assert (H99 : Qle_bool x 99 = true).
      { apply Qle_bool_iff. apply Qle_trans with (inject_Z a); [exact E|].
        change 99%Q with (inject_Z 99). rewrite <- Zle_Qle. lia. }
      rewrite H99. f_equal.
      destruct Hlow as [->|Hlow]; [lia|].
      assert (a - 1 < Qceiling x).
      { apply Z.lt_nge. intros Hle. apply Qceiling_le_iff in Hle. lra. }
      lia.
    + assert (Hgt : (inject_Z a < x)%Q).
      { apply Qnot_le_lt. intros L. apply Qle_bool_iff in L. congruence. }
      assert (G : Qle_bool (inject_Z 100) x = false).
      { destruct (Qle_bool (inject_Z 100) x) eqn:G; [|reflexivity].
        apply Qle_bool_iff in G. change (inject_Z 100) with 100%Q in G. lra. }
      rewrite G. replace (Z.pred (Z.of_nat (S n))) with (Z.of_nat n) by lia.
      apply IH; [exact Hx | lia | lia |].
      right. replace (Z.succ a - 1) with a by lia. exact Hgt.
Qed.

(** [re_bin_sio2] on every finite value: the ceiling clamped to
    [1, 100], except strictly between 99 and 100, where the loop ends
    without a bin. *)
Lemma re_bin_sio2_finite (x : Q) :
  re_bin_sio2 (Fin x) 1 100 1 =
  Ok (if Qle_bool x 99 then Some (Z.max 1 (Qceiling x))
      else if Qle_bool 100 x then Some 100 else None).
Proof.
  rewrite re_bin_sio2_default. f_equal.
  destruct (Qle_bool 100 x) eqn:G.
  - apply Qle_bool_iff in G.
    assert (E : Qle_bool x 99 = false).
    { destruct (Qle_bool x 99) eqn:E; [|reflexivity]. apply Qle_bool_iff in E. lra. }
    rewrite E. rewrite seqZ_cons by lia. cbn [re_bin_scan np_leb np_geb].
    assert (E1 : Qle_bool x (inject_Z 1) = false).
    { destruct (Qle_bool x (inject_Z 1)) eqn:E1; [|reflexivity].
      apply Qle_bool_iff in E1. change (inject_Z 1) with 1%Q in E1. lra. }
    rewrite E1. change (inject_Z 100) with 100%Q.
    assert (G' : Qle_bool 100 x = true) by (apply Qle_bool_iff; exact G).
    rewrite G'. reflexivity.
  - assert (Hx : (x < 100)%Q).
    { apply Qnot_le_lt. intros L. apply Qle_bool_iff in L. congruence. }
    change (seqZ 1 99) with (seqZ 1 (Z.of_nat 99)).
    rewrite (re_bin_scan_from x 99 1 Hx) by (lia || (left; reflexivity)).
    destruct (Qle_bool x 99); reflexivity.
Qed.

(** C9.  [re_bin_sio2(99.5)] runs off the end of [range(1, 100)] and
    returns [None], where the ceiling clamped to [1, 100] is 100; on every
    other finite value (at most 99, or at least 100) it does return the
    smallest bin of [1..100] that is at least the value, clamped to 100. *)
Theorem re_bin_sio2_gap :
  re_bin_sio2 (Fin (995 # 10)) 1 100 1 = Ok None
  /\ forall x : Q,
       ((x <= 99)%Q -> re_bin_sio2 (Fin x) 1 100 1 = Ok (Some (Z.max 1 (Qceiling x))))
       /\ ((100 <= x)%Q -> re_bin_sio2 (Fin x) 1 100 1 = Ok (Some 100))
       /\ ((99 < x < 100)%Q -> re_bin_sio2 (Fin x) 1 100 1 = Ok None).
Proof.
  split; [reflexivity|]. intros x. rewrite re_bin_sio2_finite.
  split; [|split].
  - intros H. apply Qle_bool_iff in H. rewrite H. reflexivity.
  - intros H.
    assert (E : Qle_bool x 99 = false).
    { destruct (Qle_bool x 99) eqn:E; [|reflexivity]. apply Qle_bool_iff in E. lra. }
    apply Qle_bool_iff in H. rewrite E, H. reflexivity.
  - intros [H1 H2].
    assert (E : Qle_bool x 99 = false).
    { destruct (Qle_bool x 99) eqn:E; [|reflexivity]. apply Qle_bool_iff in E. lra. }
    assert (G : Qle_bool 100 x = false).
    { destruct (Qle_bool 100 x) eqn:G; [|reflexivity]. apply Qle_bool_iff in G. lra. }
    rewrite E, G. reflexivity.
Qed.

(** ** Sample percents *)




Lemma np_unique_NoDup (l : list Z) : NoDup (np_unique l).
Proof.
  unfold np_unique. rewrite merge_sort_Permutation. apply NoDup_remove_dups.
Qed.

Lemma elem_of_np_unique (l : list Z) (x : Z) : x ∈ np_unique l <-> x ∈ l.
Proof.
  unfold np_unique. rewrite merge_sort_Permutation. apply elem_of_remove_dups.
Qed.



Lemma bar_data_empty : bar_data [] = [].
Proof. reflexivity. Qed.




(** ** The partition boundary *)

Lemma py_range_app (a b c : Z) : a <= b <= c -> py_range a b ++ py_range b c = py_range a c.
Proof.
  intros H. unfold py_range.
  replace (c - a) with ((b - a) + (c - b)) by lia.
  rewrite seqZ_app by lia. do 2 f_equal. lia.
Qed.

(** With an upper fraction of 2/3 the boundary is [floor(2 * melt_layers / 3)]. *)
Lemma split_index_two_thirds (m : Z) : 0 <= m -> split_index (2 # 3) m = 2 * m / 3.
Proof.
  intros Hm. unfold split_index. rewrite py_int_round2.
  set (k := round_half_even ((2 # 3) * inject_Z m * 100)).
  pose proof (round_half_even_bounds ((2 # 3) * inject_Z m * 100)) as [B1 B2].
  fold k in B1, B2.
  assert (L1 : 6 * k - 3 <= 400 * m).
  { apply inject_Z_le_inv. unfold Z.sub.
    rewrite inject_Z_plus, !inject_Z_mult, inject_Z_opp.
    change (inject_Z 6) with 6%Q. change (inject_Z 3) with 3%Q.
    change (inject_Z 400) with 400%Q. lra. }
  assert (L2 : 400 * m <= 6 * k + 3).
  { apply inject_Z_le_inv.
    rewrite inject_Z_plus, !inject_Z_mult.
    change (inject_Z 6) with 6%Q. change (inject_Z 3) with 3%Q.
    change (inject_Z 400) with 400%Q. lra. }
  pose proof (Z.div_mod (2 * m) 3 ltac:(lia)) as Hdm.
  pose proof (Z.mod_pos_bound (2 * m) 3 ltac:(lia)) as Hr.
  set (q := 2 * m / 3) in *. set (r := (2 * m) mod 3) in *.
  assert (Hk : 100 * q <= k <= 100 * q + 67) by lia.
  rewrite Z.quot_div_nonneg by lia.
  symmetry. apply (Z.div_unique_pos k 100 q (k - 100 * q)); lia.
Qed.

(** C2, as amended.  The disturbed layers are split at
    [int(round(upper_fraction * melt_layers, 2))]: the product rounded to
    two decimals and then truncated toward zero.  The upper range is
    [0, s) and the lower range [s, melt_layers) for that [s]; with the
    upper fraction between 0 and 1 and [melt_layers] non-negative [s] lies
    between 0 and [melt_layers] and the two ranges make up
    [0, melt_layers); for the default fraction 2/3, [s] is
    [floor(2 * melt_layers / 3)]. *)
Theorem partition_boundary (f : Q) (m : Z) :
  let s := Z.quot (round_half_even (f * inject_Z m * 100)) 100 in
  split_index f m = s
  /\ upper_layer f m = py_range 0 s
  /\ lower_layer f m = py_range s m
  /\ ((0 <= f <= 1)%Q -> 0 <= m ->
      0 <= s <= m /\ upper_layer f m ++ lower_layer f m = py_range 0 m)
  /\ (0 <= m -> split_index (2 # 3) m = 2 * m / 3).
Proof.
  cbv zeta.
  assert (E : split_index f m = Z.quot (round_half_even (f * inject_Z m * 100)) 100)
    by (unfold split_index; apply py_int_round2).
  unfold upper_layer, lower_layer. rewrite E.
  split; [reflexivity|]. split; [reflexivity|]. split; [reflexivity|]. split.
  - intros Hf Hm. rewrite <- E.
    destruct (split_index_range f m Hf) as [Hs _]. specialize (Hs Hm).
    split; [exact Hs | apply py_range_app; exact Hs].
  - apply split_index_two_thirds.
Qed.

(** C2, as stated, fails: an impactor of diameter 6 disturbs one layer;
    the code puts it in the lower range (the boundary is [int(0.67) = 0]),
    where rounding [2/3] to the nearest integer would put it in the upper
    range. *)
Lemma partition_boundary_counterexample : ~ partition_at_nearest fresh_grid 6.
Proof.
  unfold partition_at_nearest. intros [H _]. vm_compute in H. discriminate H.
Qed.

(** ** The layer mixer, run *)

Lemma with_column_twice (key : cell_id) (c1 c2 : list np_float) (s : IMPAaCS) :
  with_column key c2 (with_column key c1 s) = with_column key c2 s.
Proof.
  unfold with_column. cbn [grid_cell_state set_grid_cell_state].
  rewrite insert_insert_eq. reflexivity.
Qed.

Lemma with_column_same (key : cell_id) (col : list np_float) (s : IMPAaCS) :
  grid_cell_state s !! key = Some col -> with_column key col s = s.
Proof.
  intros H. unfold with_column. rewrite insert_id by exact H.
  apply set_grid_cell_state_id.
Qed.

Lemma with_column_lookup (key : cell_id) (col : list np_float) (s : IMPAaCS) :
  grid_cell_state (with_column key col s) !! key = Some col.
Proof. unfold with_column. cbn [grid_cell_state set_grid_cell_state]. apply lookup_insert_eq. Qed.

Lemma setitem_run (key : cell_id) (i : Z) (v : np_float) (s : IMPAaCS) (col : list np_float) :
  grid_cell_state s !! key = Some col -> 0 <= i < Z.of_nat (length col) ->
  setitem key i v s = (with_column key (<[Z.to_nat i := v]> col) s, Ok tt).
Proof.
  intros Hcol Hi. unfold setitem. rewrite bind_get_self, Hcol.
  rewrite py_index_in_range by exact Hi. reflexivity.
Qed.

Lemma getitem_run (key : cell_id) (i : Z) (s : IMPAaCS) (col : list np_float) (x : np_float) :
  grid_cell_state s !! key = Some col -> 0 <= i ->
  col !! Z.to_nat i = Some x ->
  getitem key i s = (s, Ok x).
Proof.
  intros Hcol Hi Hx. unfold getitem. rewrite bind_get_self, Hcol.
  assert (Hlt : (Z.to_nat i < length col)%nat) by (eapply lookup_lt_Some; exact Hx).
  rewrite py_index_in_range by lia. rewrite Hx. reflexivity.
Qed.

Lemma write_range_length (v : np_float) (l : list Z) (col : list np_float) :
  length (write_range v l col) = length col.
Proof.
  revert col. induction l as [|i l IH]; intros col; [reflexivity|].
  unfold write_range in *. cbn [foldl]. rewrite IH. apply length_insert.
Qed.

Lemma round_range_length (l : list Z) (col : list np_float) :
  length (round_range l col) = length col.
Proof.
  revert col. induction l as [|i l IH]; intros col; [reflexivity|].
  unfold round_range in *. cbn [foldl]. rewrite IH.
  destruct (col !! Z.to_nat i); [apply length_insert | reflexivity].
Qed.

Lemma write_range_lookup (v : np_float) (l : list Z) (col : list np_float) (n : nat) :
  (forall i, i ∈ l -> 0 <= i) -> (n < length col)%nat ->
  write_range v l col !! n = if decide (Z.of_nat n ∈ l) then Some v else col !! n.
Proof.
  revert col. induction l as [|i l IH]; intros col Hl Hn.
  - rewrite decide_False by apply not_elem_of_nil. reflexivity.
  - unfold write_range in *. cbn [foldl].
    rewrite IH; [| intros j Hj; apply Hl; right; exact Hj | rewrite length_insert; exact Hn].
    assert (0 <= i) by (apply Hl; left).
    destruct (decide (Z.of_nat n ∈ l)) as [Hin|Hnin].
    + rewrite decide_True by (right; exact Hin). reflexivity.
    + destruct (decide (Z.of_nat n = i)) as [<-|Hne].
      * rewrite decide_True by left. rewrite Nat2Z.id.
        apply list_lookup_insert_eq. exact Hn.
      * rewrite decide_False.
        -- apply list_lookup_insert_ne. lia.
        -- intros H'. apply elem_of_cons in H' as [?|?]; contradiction.
Qed.

Lemma round_range_lookup (l : list Z) (col : list np_float) (n : nat) :
  NoDup l -> (forall i, i ∈ l -> 0 <= i) ->
  round_range l col !! n
  = if decide (Z.of_nat n ∈ l) then np_round1 <$> col !! n else col !! n.
Proof.
  revert col. induction l as [|i l IH]; intros col Hnd Hl.
  - rewrite decide_False by apply not_elem_of_nil. reflexivity.
  - apply NoDup_cons in Hnd as [Hi Hnd].
    unfold round_range in *. cbn [foldl].
    rewrite IH; [| exact Hnd | intros j Hj; apply Hl; right; exact Hj].
    assert (0 <= i) by (apply Hl; left).
    destruct (decide (Z.of_nat n = i)) as [<-|Hne].
    + rewrite decide_False by exact Hi. rewrite decide_True by left.
      rewrite Nat2Z.id. destruct (col !! n) as [x|] eqn:Hx; [|exact Hx].
      apply list_lookup_insert_eq. eapply lookup_lt_Some; exact Hx.
    + assert (E : (match col !! Z.to_nat i with
                   | Some x => <[Z.to_nat i := np_round1 x]> col
                   | None => col
                   end) !! n = col !! n).
      { destruct (col !! Z.to_nat i); [|reflexivity].
        apply list_lookup_insert_ne. lia. }
      rewrite E.
      destruct (decide (Z.of_nat n ∈ l)) as [Hin|Hnin].
      * rewrite decide_True by (right; exact Hin). reflexivity.
      * rewrite decide_False; [reflexivity|].
        intros H'. apply elem_of_cons in H' as [?|?]; contradiction.
Qed.

Lemma for_setitem_run (key : cell_id) (v : np_float) (body : Z -> Py unit)
    (l : list Z) (s : IMPAaCS) (col : list np_float) :
  (forall i s', body i s' = setitem key i v s') ->
  grid_cell_state s !! key = Some col ->
  (forall i, i ∈ l -> 0 <= i < Z.of_nat (length col)) ->
  for_ l body s = (with_column key (write_range v l col) s, Ok tt).
Proof.
  intros Hbody. revert s col. induction l as [|i l IH]; intros s col Hcol Hl.
  - cbn [for_ write_range foldl]. rewrite with_column_same by exact Hcol. reflexivity.
  - cbn [for_].
    change ((body i ;; for_ l body) s) with (bind (body i) (fun _ => for_ l body) s).
    unfold bind. rewrite Hbody, (setitem_run key i v s col Hcol) by (apply Hl; left).
    rewrite (IH _ (<[Z.to_nat i := v]> col)).
    + rewrite with_column_twice. reflexivity.
    + apply with_column_lookup.
    + intros j Hj. rewrite length_insert. apply Hl. right. exact Hj.
Qed.

Lemma for_round_run (key : cell_id) (l : list Z) (s : IMPAaCS) (col : list np_float) :
  grid_cell_state s !! key = Some col ->
  (forall i, i ∈ l -> 0 <= i < Z.of_nat (length col)) ->
  for_ l (fun i => let* x := getitem key i in setitem key i (np_round1 x)) s
  = (with_column key (round_range l col) s, Ok tt).
Proof.
  revert s col. induction l as [|i l IH]; intros s col Hcol Hl.
  - cbn [for_ round_range foldl]. rewrite with_column_same by exact Hcol. reflexivity.
  - cbn [for_].
    match goal with
    | |- (?m ;; ?k) s = _ => change ((m ;; k) s) with (bind m (fun _ => k) s)
    end.
    assert (Hi : 0 <= i < Z.of_nat (length col)) by (apply Hl; left).
    destruct (lookup_lt_is_Some_2 col (Z.to_nat i)) as [x Hx]; [lia|].
    unfold bind at 1. unfold bind at 1.
    rewrite (getitem_run key i s col x Hcol) by (lia || exact Hx).
    rewrite (setitem_run key i _ s col Hcol Hi).
    rewrite (IH _ (<[Z.to_nat i := np_round1 x]> col)).
    + rewrite with_column_twice. unfold round_range. cbn [foldl]. rewrite Hx. reflexivity.
    + apply with_column_lookup.
    + intros j Hj. rewrite length_insert. apply Hl. right. exact Hj.
Qed.

Lemma seq_run {A B : Type} (m : Py A) (k : Py B) (s : IMPAaCS) :
  (m ;; k) s = match m s with
               | (s', Ok _) => k s'
               | (s', Raise e) => (s', Raise e)
               end.
Proof. reflexivity. Qed.

Lemma lower_value_run (s : IMPAaCS) (wt : np_float) :
  py_truediv
    (py_sub (average_target s) (py_mul (PyNum (fraction_upper_layer s)) (NpNum wt)))
    (PyNum (fraction_lower_layer s))
  = Some (NpNum (lower_value s wt)).
Proof. unfold lower_value. destruct (average_target s); reflexivity. Qed.

(** What [state_dynamics] does when nothing raises: the cell is in the
    store, the two Python divisions and the division for the upper value
    go through, and the three ranges lie inside the column. *)
Lemma state_dynamics_run (s : IMPAaCS) (d : Q) (key : cell_id)
    (col : list np_float) (u : pyval) :
  grid_cell_state s !! key = Some col ->
  Qeq_bool (z_discretized_km s) 0 = false ->
  Qeq_bool (upper_SiO2 s) 0 = false ->
  py_truediv (average_target s) (PyNum (one_minus_fractionation s)) = Some u ->
  (forall i,
      i ∈ lower_layer (fraction_upper_layer s) (melt_layers_of s d)
      \/ i ∈ upper_layer (fraction_upper_layer s) (melt_layers_of s d)
      \/ i ∈ py_range 0 (melt_layers_of s d) ->
      0 <= i < Z.of_nat (length col)) ->
  (0 < length col)%nat ->
  state_dynamics d key s = (with_column key (mixed_column s d u col) s, Ok tt).
Proof.
  intros Hcol Hz Hu Htd Hr Hlen.
  unfold state_dynamics. rewrite bind_get_self.
  unfold bind at 1. rewrite py_div_run, Hz. fold (melt_layers_of s d).
  unfold bind at 1. rewrite py_div_run, Hu.
  set (m := melt_layers_of s d) in *.
  set (lower := lower_layer (fraction_upper_layer s) m) in *.
  set (upper := upper_layer (fraction_upper_layer s) m) in *.
  (* first pass over the lower range *)
  rewrite seq_run.
  rewrite (for_setitem_run key (Fin (primitive_initial_state s)) _ lower s col);
    [| reflexivity | exact Hcol | intros i Hi; apply Hr; auto].
  set (c1 := write_range (Fin (primitive_initial_state s)) lower col).
  assert (L1 : length c1 = length col) by apply write_range_length.
  (* the upper range *)
  rewrite seq_run.
  rewrite (for_setitem_run key (to_np u) _ upper _ c1);
    [| | apply with_column_lookup | rewrite L1; intros i Hi; apply Hr; auto].
  2:{ intros i s'. unfold bind, truediv.
      change (1 - (1 - target_SiO2 s / upper_SiO2 s))%Q with (one_minus_fractionation s).
      rewrite Htd. reflexivity. }
  rewrite with_column_twice.
  set (c2 := write_range (to_np u) upper c1).
  assert (L2 : length c2 = length col) by (unfold c2; rewrite write_range_length; exact L1).
  (* the value at index 0 *)
  destruct (lookup_lt_is_Some_2 c2 0%nat) as [wt Hwt]; [lia|].
  unfold bind at 1.
  rewrite (getitem_run key 0 _ c2 wt); [| apply with_column_lookup | lia | exact Hwt].
  (* second pass over the lower range *)
  rewrite seq_run.
  rewrite (for_setitem_run key (lower_value s wt) _ lower _ c2);
    [| | apply with_column_lookup | rewrite L2; intros i Hi; apply Hr; auto].
  2:{ intros i s'. unfold bind, truediv. rewrite lower_value_run. reflexivity. }
  rewrite with_column_twice.
  set (c3 := write_range (lower_value s wt) lower c2).
  assert (L3 : length c3 = length col) by (unfold c3; rewrite write_range_length; exact L2).
  (* rounding *)
  rewrite (for_round_run key _ _ c3);
    [| apply with_column_lookup | rewrite L3; intros i Hi; apply Hr; auto].
  rewrite with_column_twice.
  unfold mixed_column. fold m lower upper c1 c2. rewrite Hwt. reflexivity.
Qed.


Lemma mixed_column_lookups (s : IMPAaCS) (d : Q) (u : pyval) (col : list np_float) :
  (0 <= fraction_upper_layer s <= 1)%Q ->
  melt_layers_of s d <= Z.of_nat (length col) ->
  (0 < length col)%nat ->
  let m := melt_layers_of s d in
  let sp := split_index (fraction_upper_layer s) m in
  let col' := mixed_column s d u col in
  (forall i, 0 <= i < sp -> col' !! Z.to_nat i = Some (np_round1 (to_np u)))
  /\ (forall i, sp <= i < m ->
        col' !! Z.to_nat i
        = Some (np_round1 (lower_value s (if 0 <? sp then to_np u
                                          else Fin (primitive_initial_state s)))))
  /\ (forall n : nat, m <= Z.of_nat n -> col' !! n = col !! n).
Proof.
  intros Hf Hm Hlen. cbv zeta. unfold mixed_column.
  set (m := melt_layers_of s d) in *.
  set (f := fraction_upper_layer s) in *.
  set (sp := split_index f m).
  set (c1 := write_range (Fin (primitive_initial_state s)) (lower_layer f m) col).
  set (c2 := write_range (to_np u) (upper_layer f m) c1).
  assert (L1 : length c1 = length col) by apply write_range_length.
  assert (L2 : length c2 = length col) by (unfold c2; rewrite write_range_length; exact L1).
  assert (Hsp : (0 <= m -> 0 <= sp <= m) /\ (m <= 0 -> m <= sp <= 0))
    by (apply split_index_range; exact Hf).
  assert (Nl : forall i, i ∈ lower_layer f m -> 0 <= i).
  { intros i Hi. apply elem_of_lower_layer in Hi. fold sp in Hi. lia. }
  assert (Nu : forall i, i ∈ upper_layer f m -> 0 <= i).
  { intros i Hi. apply elem_of_upper_layer in Hi. lia. }
  assert (Nr : forall i, i ∈ py_range 0 m -> 0 <= i).
  { intros i Hi. apply elem_of_py_range in Hi. lia. }
  assert (Hc2 : forall n, (n < length col)%nat ->
            c2 !! n = if decide (Z.of_nat n ∈ upper_layer f m) then Some (to_np u)
                      else if decide (Z.of_nat n ∈ lower_layer f m)
                           then Some (Fin (primitive_initial_state s)) else col !! n).
  { intros n Hn. unfold c2. rewrite write_range_lookup by (auto || lia).
    unfold c1. rewrite write_range_lookup by (auto || lia). reflexivity. }
  destruct (lookup_lt_is_Some_2 c2 0%nat) as [wt Hwt]; [lia|]. rewrite Hwt.
  set (c3 := write_range (lower_value s wt) (lower_layer f m) c2).
  assert (Hc4 : forall n, (n < length col)%nat ->
            round_range (py_range 0 m) c3 !! n
            = if decide (Z.of_nat n ∈ py_range 0 m)
              then np_round1 <$>
                   (if decide (Z.of_nat n ∈ lower_layer f m) then Some (lower_value s wt)
                    else c2 !! n)
              else if decide (Z.of_nat n ∈ lower_layer f m) then Some (lower_value s wt)
                   else c2 !! n).
  { intros n Hn.
    rewrite round_range_lookup by (apply NoDup_seqZ || exact Nr).
    unfold c3. rewrite write_range_lookup by (auto || lia). reflexivity. }
  split; [|split].
  - intros i Hi.
    rewrite Hc4 by lia. rewrite Z2Nat.id by lia.
    rewrite decide_True by (apply elem_of_py_range; lia).
    rewrite decide_False by (rewrite elem_of_lower_layer; fold sp; lia).
    rewrite Hc2 by lia. rewrite Z2Nat.id by lia.
    rewrite decide_True by (apply elem_of_upper_layer; fold sp; lia).
    reflexivity.
  - intros i Hi.
    assert (0 <= i) by lia.
    rewrite Hc4 by lia. rewrite Z2Nat.id by lia.
    rewrite decide_True by (apply elem_of_py_range; lia).
    rewrite decide_True by (apply elem_of_lower_layer; fold sp; lia).
    cbn [fmap option_fmap option_map]. do 3 f_equal.
    rewrite Hc2 in Hwt by lia. change (Z.of_nat 0) with 0 in Hwt.
    destruct (0 <? sp) eqn:E.
    + rewrite decide_True in Hwt by (apply elem_of_upper_layer; fold sp; lia).
      congruence.
    + rewrite decide_False in Hwt by (rewrite elem_of_upper_layer; fold sp; lia).
      rewrite decide_True in Hwt by (apply elem_of_lower_layer; fold sp; lia).
      congruence.
  - intros n Hn.
    destruct (decide (n < length col)%nat) as [Hlt|Hge].
    + rewrite Hc4 by exact Hlt.
      rewrite decide_False by (rewrite elem_of_py_range; lia).
      rewrite decide_False by (rewrite elem_of_lower_layer; lia).
      rewrite Hc2 by exact Hlt.
      rewrite decide_False by (rewrite elem_of_upper_layer; fold sp; lia).
      rewrite decide_False by (rewrite elem_of_lower_layer; lia).
      reflexivity.
    + rewrite !lookup_ge_None_2; [reflexivity | lia |].
      unfold c3. rewrite round_range_length, write_range_length. lia.
Qed.



(** ** The settings called degenerate *)








(** ** The target averager *)

Lemma np_eq_refl (x : np_float) : np_eq x x.
Proof. destruct x; simpl; [reflexivity | exact I..]. Qed.

Lemma np_eq_trans (x y z : np_float) : np_eq x y -> np_eq y z -> np_eq x z.
Proof.
  destruct x, y, z; simpl; try tauto. intros H1 H2. rewrite H1. exact H2.
Qed.

Lemma np_eq_sym (x y : np_float) : np_eq x y -> np_eq y x.
Proof. destruct x, y; simpl; try tauto. intros H. symmetry. exact H. Qed.

Lemma np_add_proper (x x' y y' : np_float) :
  np_eq x x' -> np_eq y y' -> np_eq (np_add x y) (np_add x' y').
Proof.
  destruct x, x', y, y'; simpl; try tauto. intros H1 H2. rewrite H1, H2. reflexivity.
Qed.

Lemma np_add_assoc (x y z : np_float) :
  np_eq (np_add (np_add x y) z) (np_add x (np_add y z)).
Proof. destruct x, y, z; simpl; try exact I. ring. Qed.

Lemma np_add_zero_l (x : np_float) : np_eq (np_add (Fin 0) x) x.
Proof. destruct x; simpl; try exact I. ring. Qed.

Lemma np_div_proper (x x' : np_float) (q : Q) :
  np_eq x x' -> np_eq (np_div x (Fin q)) (np_div x' (Fin q)).
Proof.
  destruct x as [a| | |], x' as [a'| | |]; simpl; try tauto.
  - intros H. destruct (Qeq_bool q 0).
    + rewrite H. apply np_eq_refl.
    + simpl. rewrite H. reflexivity.
  - intros _. apply np_eq_refl.
  - intros _. apply np_eq_refl.
Qed.

Lemma fold_np_add (l : list np_float) (a : np_float) :
  np_eq (fold_left np_add l a) (np_add a (np_sum l)).
Proof.
  revert a. induction l as [|x l IH]; intros a.
  - unfold np_sum. simpl. destruct a; simpl; try exact I. ring.
  - unfold np_sum. cbn [fold_left].
    eapply np_eq_trans; [apply IH|].
    eapply np_eq_trans; [apply np_add_assoc|].
    apply np_add_proper; [apply np_eq_refl|].
    apply np_eq_sym.
    eapply np_eq_trans; [apply IH|].
    apply np_add_proper; [apply np_add_zero_l | apply np_eq_refl].
Qed.

Lemma np_sum_app (l1 l2 : list np_float) :
  np_eq (np_sum (l1 ++ l2)) (np_add (np_sum l1) (np_sum l2)).
Proof. unfold np_sum at 1. rewrite fold_left_app. apply fold_np_add. Qed.

Lemma np_sum_concat (ls : list (list np_float)) :
  np_eq (np_sum (concat ls)) (np_sum (map np_sum ls)).
Proof.
  induction ls as [|l ls IH]; [apply np_eq_refl|].
  cbn [concat map].
  eapply np_eq_trans; [apply np_sum_app|].
  apply np_eq_sym. unfold np_sum at 1. cbn [fold_left].
  eapply np_eq_trans; [apply fold_np_add|].
  apply np_add_proper; [apply np_add_zero_l | apply np_eq_sym, IH].
Qed.

Lemma fold_np_add_proper (l l' : list np_float) (a a' : np_float) :
  Forall2 np_eq l l' -> np_eq a a' ->
  np_eq (fold_left np_add l a) (fold_left np_add l' a').
Proof.
  intros H. revert a a'.
  induction H as [|x x' l l' Hx Hl IH]; intros a a' Ha; [exact Ha|].
  cbn [fold_left]. apply IH. apply np_add_proper; assumption.
Qed.

Lemma np_sum_proper (l l' : list np_float) :
  Forall2 np_eq l l' -> np_eq (np_sum l) (np_sum l').
Proof. intros H. apply fold_np_add_proper; [exact H | apply np_eq_refl]. Qed.

Lemma np_sum_replicate (n : nat) (q : Q) :
  np_eq (np_sum (replicate n (Fin q))) (Fin (q * inject_Z (Z.of_nat n))).
Proof.
  induction n as [|n IH].
  - simpl. change (inject_Z 0) with 0%Q. ring.
  - change (replicate (S n) (Fin q)) with ([Fin q] ++ replicate n (Fin q)).
    eapply np_eq_trans; [apply np_sum_app|].
    eapply np_eq_trans; [apply np_add_proper; [apply np_eq_refl | apply IH]|].
    simpl. rewrite Nat2Z.inj_succ. unfold Z.succ. rewrite inject_Z_plus.
    change (inject_Z 1) with 1%Q. ring.
Qed.

Lemma to_np_py_add (a b : pyval) : to_np (py_add a b) = np_add (to_np a) (to_np b).
Proof. destruct a, b; reflexivity. Qed.

Lemma slice_to_length {A : Type} (z : Z) (a : list A) :
  0 <= z <= Z.of_nat (length a) -> length (slice_to z a) = Z.to_nat z.
Proof.
  intros H. unfold slice_to. destruct (z <? 0) eqn:E; [lia|].
  rewrite length_take. lia.
Qed.

Lemma get_average_target_run (d : Q) (s : IMPAaCS) :
  get_average_target d s =
  match py_truediv (target_sum s)
          (PyNum (inject_Z (Z.of_nat (length (impacted_grid_cells s)) * z_layers s))) with
  | Some v => (set_average_target v s, Ok tt)
  | None => (s, Raise ZeroDivisionError)
  end.
Proof.
  unfold get_average_target. rewrite bind_get_self. fold (target_sum s).
  unfold bind, truediv.
  destruct (py_truediv _ _); reflexivity.
Qed.

Lemma fold_target_terms (s : IMPAaCS) (cells : list (Q * Q)) (a : pyval) :
  to_np (fold_left (fun acc '(ilon, ilat) =>
      let grid_cell_id := grid_cell_id_of ilon ilat in
      match grid_cell_state s !! grid_cell_id with
      | Some column => py_add acc (NpNum (np_sum (slice_to (z_layers s) column)))
      | None => py_add acc (PyNum (primitive_initial_state s * inject_Z (z_layers s)))
      end) cells a)
  = fold_left np_add (map (target_term s) cells) (to_np a).
Proof.
  revert a. induction cells as [|[ilon ilat] cells IH]; intros a; [reflexivity|].
  cbn [fold_left map]. rewrite IH. f_equal.
  unfold target_term. cbn [fst snd].
  destruct (grid_cell_state s !! grid_cell_id_of ilon ilat); apply to_np_py_add.
Qed.

Lemma to_np_target_sum (s : IMPAaCS) :
  to_np (target_sum s) = np_sum (map (target_term s) (impacted_grid_cells s)).
Proof. apply fold_target_terms. Qed.

Lemma to_np_truediv (a : pyval) (q : Q) (v : pyval) :
  py_truediv a (PyNum q) = Some v -> Qeq_bool q 0 = false ->
  to_np v = np_div (to_np a) (Fin q).
Proof.
  intros H Hq. destruct a as [x|x]; simpl in H.
  - rewrite Hq in H. injection H as <-. simpl. rewrite Hq. reflexivity.
  - injection H as <-. reflexivity.
Qed.

Lemma py_truediv_nonzero (a : pyval) (q : Q) :
  Qeq_bool q 0 = false -> exists v, py_truediv a (PyNum q) = Some v.
Proof. intros Hq. destruct a; simpl; rewrite ?Hq; eauto. Qed.

Section Averager.

Context (s : IMPAaCS).
Hypothesis z_pos : 0 < z_layers s.
Hypothesis deep_enough :
  forall c col, c ∈ impacted_grid_cells s ->
    grid_cell_state s !! grid_cell_id_of c.1 c.2 = Some col ->
    z_layers s <= Z.of_nat (length col).

Let values (c : Q * Q) : list np_float :=
  match grid_cell_state s !! grid_cell_id_of c.1 c.2 with
  | Some col => slice_to (z_layers s) col
  | None => replicate (Z.to_nat (z_layers s)) (Fin (primitive_initial_state s))
  end.

Lemma footprint_values_length :
  Z.of_nat (length (footprint_values s))
  = Z.of_nat (length (impacted_grid_cells s)) * z_layers s.
Proof.
  unfold footprint_values. fold values.
  induction (impacted_grid_cells s) as [|c cells IH]; [reflexivity|].
  cbn [map concat length]. rewrite length_app, Nat2Z.inj_add, IH.
  - assert (E : length (values c) = Z.to_nat (z_layers s)).
    { unfold values.
      destruct (grid_cell_state s !! grid_cell_id_of c.1 c.2) as [col|] eqn:Hc.
      - apply slice_to_length. split; [lia|]. eapply deep_enough; [left | exact Hc].
      - apply length_replicate. }
    rewrite E. lia.
  - intros c' col Hc'. apply deep_enough. right. exact Hc'.
Qed.

Lemma footprint_values_sum :
  np_eq (np_sum (footprint_values s)) (to_np (target_sum s)).
Proof.
  rewrite to_np_target_sum. unfold footprint_values. fold values.
  eapply np_eq_trans; [apply np_sum_concat|].
  rewrite map_map. apply np_sum_proper.
  clear deep_enough. induction (impacted_grid_cells s) as [|c cells IH]; [constructor|].
  cbn [map]. constructor; [|exact IH].
  unfold values, target_term.
  destruct (grid_cell_state s !! grid_cell_id_of c.1 c.2); [apply np_eq_refl|].
  eapply np_eq_trans; [apply np_sum_replicate|].
  simpl. rewrite Z2Nat.id by lia. reflexivity.
Qed.

End Averager.

(** Mixing never assigns [average_target]. *)
Lemma mix_cells_average_target (d : Q) (order : list (Q * Q)) (s : IMPAaCS) :
  average_target (fst (mix_cells d order s)) = average_target s.
Proof.
  destruct (mix_cells_keeps (params s)
              (fun x => params x = params s /\ average_target x = average_target s)
              (fun _ _ => True)) with (d := d) (cells := order) (s := s) as [[_ H] _];
    try tauto; auto.
Qed.



(** * Further properties of the methods

    ** The grid subsetter *)

Lemma py_in_true (x : Q) (l : list Q) :
  py_in x l = true <-> exists y, y ∈ l /\ (x == y)%Q.
Proof.
  unfold py_in. rewrite existsb_exists. split.
  - intros (y & Hy & E). exists y. split; [apply list_elem_of_In, Hy | apply Qeq_bool_iff, E].
  - intros (y & Hy & E). exists y. split; [apply list_elem_of_In, Hy | apply Qeq_bool_iff, E].
Qed.

Lemma elem_of_add_once (x y : Q) (l : list Q) :
  y ∈ add_once x l -> y ∈ l \/ y = x.
Proof.
  unfold add_once. destruct (py_in x l); [auto|].
  rewrite elem_of_app, list_elem_of_singleton. auto.
Qed.

Lemma add_once_keeps (x y : Q) (l : list Q) : y ∈ l -> y ∈ add_once x l.
Proof.
  unfold add_once. destruct (py_in x l); [auto|]. intros H. apply elem_of_app. auto.
Qed.

Lemma add_once_has (x : Q) (l : list Q) : exists x', x' ∈ add_once x l /\ (x' == x)%Q.
Proof.
  unfold add_once. destruct (py_in x l) eqn:E.
  - apply py_in_true in E as (y & Hy & Hxy). exists y. split; [exact Hy | symmetry; exact Hxy].
  - exists x. split; [apply elem_of_app; right; left | reflexivity].
Qed.

Lemma add_once_distinct (x : Q) (l : list Q) :
  distinct_numbers l -> distinct_numbers (add_once x l).
Proof.
  unfold add_once, distinct_numbers. intros Hl. destruct (py_in x l) eqn:E; [exact Hl|].
  intros i j a b Ha Hb Hab.
  assert (Hnot : forall k c, l !! k = Some c -> ~ (c == x)%Q).
  { intros k c Hc Hcx.
    assert (T : py_in x l = true).
    { apply py_in_true. exists c. split; [eapply list_elem_of_lookup_2; exact Hc|].
      symmetry. exact Hcx. }
    congruence. }
  destruct (decide (i < length l)%nat) as [Hi|Hi], (decide (j < length l)%nat) as [Hj|Hj].
  - rewrite lookup_app_l in Ha, Hb by assumption. eapply Hl; eassumption.
  - rewrite lookup_app_l in Ha by assumption. rewrite lookup_app_r in Hb by lia.
    apply list_lookup_singleton_Some in Hb as [_ <-]. exfalso. eapply Hnot; eassumption.
  - rewrite lookup_app_l in Hb by assumption. rewrite lookup_app_r in Ha by lia.
    apply list_lookup_singleton_Some in Ha as [_ <-]. exfalso.
    eapply Hnot; [exact Hb | symmetry; exact Hab].
  - rewrite lookup_app_r in Ha, Hb by lia.
    apply list_lookup_singleton_Some in Ha as [Ha _].
    apply list_lookup_singleton_Some in Hb as [Hb _]. lia.
Qed.

Section Subsetter.

Context (lon_lims lat_lims : Q * Q).

Let inside_b (lims : Q * Q) (x : Q) : bool := Qltb (fst lims) x && Qltb x (snd lims).

Let step (acc : list Q * list Q) (c : Q * Q) : list Q * list Q :=
  if inside_b lat_lims c.2 && inside_b lon_lims c.1
  then (add_once c.1 acc.1, add_once c.2 acc.2) else acc.

Lemma inside_b_spec (lims : Q * Q) (x : Q) :
  inside_b lims x = true <-> strictly_inside lims x.
Proof.
  unfold inside_b, strictly_inside. rewrite andb_true_iff, !Qltb_lt. reflexivity.
Qed.

Lemma get_subset_of_grids_fold (londim latdim : list Q) :
  get_subset_of_grids londim latdim lon_lims lat_lims
  = fold_left step (list_prod londim latdim) ([], []).
Proof.
  unfold get_subset_of_grids. generalize (@nil Q, @nil Q).
  induction (list_prod londim latdim) as [|[ilon ilat] ps IH]; intros [lo la]; [reflexivity|].
  cbn [fold_left]. rewrite IH. f_equal.
  unfold step, inside_b, add_once. cbn [fst snd].
  destruct (Qltb lat_lims.1 ilat && Qltb ilat lat_lims.2); [|reflexivity].
  destruct (Qltb lon_lims.1 ilon && Qltb ilon lon_lims.2); reflexivity.
Qed.

Lemma subset_fold_sound (ps : list (Q * Q)) (acc : list Q * list Q) :
  let r := fold_left step ps acc in
  (forall x, x ∈ r.1 -> x ∈ acc.1 \/
     exists y, (x, y) ∈ ps /\ strictly_inside lon_lims x /\ strictly_inside lat_lims y)
  /\ (forall y, y ∈ r.2 -> y ∈ acc.2 \/
     exists x, (x, y) ∈ ps /\ strictly_inside lon_lims x /\ strictly_inside lat_lims y).
Proof.
  revert acc. induction ps as [|[ilon ilat] ps IH]; intros acc; cbv zeta.
  - split; intros ? ?; left; assumption.
  - cbn [fold_left]. destruct (IH (step acc (ilon, ilat))) as [H1 H2]. cbv zeta in H1, H2.
    assert (Hstep :
      (forall x, x ∈ (step acc (ilon, ilat)).1 -> x ∈ acc.1 \/
         (x = ilon /\ strictly_inside lon_lims ilon /\ strictly_inside lat_lims ilat))
      /\ (forall y, y ∈ (step acc (ilon, ilat)).2 -> y ∈ acc.2 \/
         (y = ilat /\ strictly_inside lon_lims ilon /\ strictly_inside lat_lims ilat))).
    { unfold step. cbn [fst snd].
      destruct (inside_b lat_lims ilat) eqn:Ea; [|split; auto].
      destruct (inside_b lon_lims ilon) eqn:Eo; [|split; auto].
      apply inside_b_spec in Ea, Eo. cbn [andb fst snd].
      split; intros z Hz; apply elem_of_add_once in Hz as [?| ->]; auto. }
    destruct Hstep as [S1 S2]. split.
    + intros x Hx. destruct (H1 x Hx) as [Hin|(y & Hy & ?)].
      * destruct (S1 x Hin) as [?|(-> & ? & ?)]; [auto|].
        right. exists ilat. split; [left | auto].
      * right. exists y. split; [right; exact Hy | assumption].
    + intros y Hy. destruct (H2 y Hy) as [Hin|(x & Hx & ?)].
      * destruct (S2 y Hin) as [?|(-> & ? & ?)]; [auto|].
        right. exists ilon. split; [left | auto].
      * right. exists x. split; [right; exact Hx | assumption].
Qed.

Lemma subset_fold_grows (ps : list (Q * Q)) (acc : list Q * list Q) :
  (forall x, x ∈ acc.1 -> x ∈ (fold_left step ps acc).1)
  /\ (forall y, y ∈ acc.2 -> y ∈ (fold_left step ps acc).2).
Proof.
  revert acc. induction ps as [|c ps IH]; intros acc; [auto|].
  cbn [fold_left]. destruct (IH (step acc c)) as [H1 H2].
  unfold step in *. destruct (inside_b lat_lims c.2 && inside_b lon_lims c.1).
  - cbn [fst snd] in *. split; intros z Hz; [apply H1 | apply H2]; apply add_once_keeps, Hz.
  - auto.
Qed.

Lemma subset_fold_complete (ps : list (Q * Q)) (acc : list Q * list Q) (x y : Q) :
  (x, y) ∈ ps -> strictly_inside lon_lims x -> strictly_inside lat_lims y ->
  (exists x', x' ∈ (fold_left step ps acc).1 /\ (x' == x)%Q)
  /\ (exists y', y' ∈ (fold_left step ps acc).2 /\ (y' == y)%Q).
Proof.
  intros Hin Hx Hy. revert acc. induction ps as [|c ps IH]; intros acc; [inversion Hin|].
  cbn [fold_left]. apply elem_of_cons in Hin as [<-|Hin]; [|apply IH, Hin].
  destruct (subset_fold_grows ps (step acc (x, y))) as [G1 G2].
  unfold step in *. cbn [fst snd] in *.
  apply inside_b_spec in Hx, Hy. rewrite Hx, Hy in *. cbn [andb fst snd] in *.
  destruct (add_once_has x acc.1) as (x' & Hx' & Ex).
  destruct (add_once_has y acc.2) as (y' & Hy' & Ey).
  split; [exists x' | exists y']; auto.
Qed.

Lemma subset_fold_distinct (ps : list (Q * Q)) (acc : list Q * list Q) :
  distinct_numbers acc.1 -> distinct_numbers acc.2 ->
  distinct_numbers (fold_left step ps acc).1 /\ distinct_numbers (fold_left step ps acc).2.
Proof.
  revert acc. induction ps as [|c ps IH]; intros acc D1 D2; [auto|].
  cbn [fold_left]. apply IH; unfold step;
    destruct (inside_b lat_lims c.2 && inside_b lon_lims c.1); cbn [fst snd];
    auto using add_once_distinct.
Qed.

End Subsetter.

(** X1.  [get_subset_of_grids] keeps exactly the grid values strictly
    inside the box, each once: every longitude kept is a longitude of the
    provider's grid strictly inside the longitude limits, and was kept
    because some latitude of the grid lies strictly inside the latitude
    limits (and the same with the roles exchanged, so that when no latitude
    is inside the box no longitude is kept either); every pair of a
    longitude and a latitude of the grid that are both inside has both
    values in the subsets; and neither subset holds a number twice. *)
Theorem get_subset_of_grids_spec (londim latdim : list Q) (lon_lims lat_lims : Q * Q) :
  let r := get_subset_of_grids londim latdim lon_lims lat_lims in
  (forall x, x ∈ r.1 ->
     x ∈ londim /\ strictly_inside lon_lims x
     /\ exists y, y ∈ latdim /\ strictly_inside lat_lims y)
  /\ (forall y, y ∈ r.2 ->
     y ∈ latdim /\ strictly_inside lat_lims y
     /\ exists x, x ∈ londim /\ strictly_inside lon_lims x)
  /\ (forall x y, x ∈ londim -> y ∈ latdim ->
       strictly_inside lon_lims x -> strictly_inside lat_lims y ->
       (exists x', x' ∈ r.1 /\ (x' == x)%Q) /\ (exists y', y' ∈ r.2 /\ (y' == y)%Q))
  /\ distinct_numbers r.1 /\ distinct_numbers r.2
  /\ ((forall y, y ∈ latdim -> ~ strictly_inside lat_lims y) -> r = ([], [])).
Proof.
  cbv zeta. rewrite get_subset_of_grids_fold.
  pose proof (subset_fold_sound lon_lims lat_lims (list_prod londim latdim) ([], []))
    as [S1 S2].
  assert (Dnil : distinct_numbers []) by (intros i j a b H; inversion H).
  pose proof (subset_fold_distinct lon_lims lat_lims (list_prod londim latdim) ([], [])
                Dnil Dnil) as [D1 D2].
  pose proof (fun x y => subset_fold_complete lon_lims lat_lims
                (list_prod londim latdim) ([], []) x y) as Hc.
  cbv zeta in S1, S2.
  match goal with
  | |- context [fold_left ?f ?l ?a] => set (r := fold_left f l a) in *
  end.
  assert (Hprod : forall x y, (x, y) ∈ list_prod londim latdim <-> x ∈ londim /\ y ∈ latdim).
  { intros x y. rewrite !list_elem_of_In. apply in_prod_iff. }
  assert (A1 : forall x, x ∈ r.1 ->
             x ∈ londim /\ strictly_inside lon_lims x
             /\ exists y, y ∈ latdim /\ strictly_inside lat_lims y).
  { intros x Hx. destruct (S1 x Hx) as [Hnil|(y & Hy & ? & ?)]; [inversion Hnil|].
    apply Hprod in Hy as [? ?]. eauto. }
  assert (A2 : forall y, y ∈ r.2 ->
             y ∈ latdim /\ strictly_inside lat_lims y
             /\ exists x, x ∈ londim /\ strictly_inside lon_lims x).
  { intros y Hy. destruct (S2 y Hy) as [Hnil|(x & Hx & ? & ?)]; [inversion Hnil|].
    apply Hprod in Hx as [? ?]. eauto. }
  split; [exact A1|]. split; [exact A2|]. split.
  { intros x y Hx Hy Ix Iy. apply Hc; [apply Hprod|..]; auto. }
  split; [exact D1|]. split; [exact D2|].
  intros Hno. destruct r as [lo la]. cbn [fst snd] in A1, A2.
  assert (lo = []).
  { destruct lo as [|x lo]; [reflexivity|].
    destruct (A1 x) as (_ & _ & y & Hy & Iy); [left|]. exfalso. eapply Hno; eassumption. }
  assert (la = []).
  { destruct la as [|y la]; [reflexivity|].
    destruct (A2 y) as (Hy & Iy & _); [left|]. exfalso. eapply Hno; eassumption. }
  subst. reflexivity.
Qed.

(** ** Construction, in all its outcomes *)

Lemma Qmult_1_l_eq (p : Q) : (1 * p)%Q = p.
Proof. destruct p as [n d]. unfold Qmult. simpl. destruct n; reflexivity. Qed.

Lemma fresh_column_uniform (total : Z) (primitive : Q) :
  fresh_column total primitive = replicate (Z.to_nat total) (Fin primitive).
Proof.
  unfold fresh_column. induction (Z.to_nat total) as [|n IH]; [reflexivity|].
  cbn [replicate map]. rewrite IH. f_equal. simpl. rewrite Qmult_1_l_eq. reflexivity.
Qed.

Lemma state_prep_cases (s : IMPAaCS) :
  state_prep s =
  if Qeq_bool (z_discretized_km s) 0 then (s, Raise ZeroDivisionError)
  else
    let total := py_int (max_depth_of_impact_melt s / z_discretized_km s) in
    if total <? 0
    then (s, match grid_points s with [] => Ok tt | _ :: _ => Raise ValueError end)
    else (set_grid_cell_state
            (prepared (fresh_column total (primitive_initial_state s))
                      (grid_points s) (grid_cell_state s)) s, Ok tt).
Proof.
  unfold state_prep. rewrite bind_get_self. unfold bind at 1. rewrite py_div_run.
  destruct (Qeq_bool (z_discretized_km s) 0); [reflexivity|]. cbv zeta.
  set (total := py_int (max_depth_of_impact_melt s / z_discretized_km s)).
  destruct (total <? 0) eqn:E.
  - destruct (grid_points s) as [|[ilon ilat] cells]; [reflexivity|].
    cbn [for_].
    match goal with
    | |- (?m ;; ?k) s = _ => change ((m ;; k) s) with (bind m (fun _ => k) s)
    end.
    unfold bind at 1. unfold bind at 1. unfold np_ones at 1. rewrite E. reflexivity.
  - apply state_prep_loop_run. lia.
Qed.

(** X2.  How the constructor ends.  With a layer thickness of zero it
    raises ZeroDivisionError; otherwise, when
    [int(max_depth / layer_thickness)] is negative it raises ValueError
    (from [np.ones]) if the working grid has a cell, and returns if the
    working grid is empty; otherwise it returns.  In every raising case
    the store is left empty. *)
Theorem init_outcome (londim latdim : list Q)
    (max_depth primitive fraction_upper target upper z_km proportion t0 : Q)
    (lon_lims lat_lims : Q * Q) :
  let r := init londim latdim max_depth primitive fraction_upper target upper z_km
                proportion t0 lon_lims lat_lims in
  let total := py_int (max_depth / z_km) in
  snd r =
    (if Qeq_bool z_km 0 then Raise ZeroDivisionError
     else if (total <? 0) && negb (bool_decide (grid_points (fst r) = []))
          then Raise ValueError else Ok tt)
  /\ (snd r <> Ok tt -> grid_cell_state (fst r) = ∅).
Proof.
  cbv zeta. unfold init. rewrite state_prep_cases.
  cbn [z_discretized_km max_depth_of_impact_melt params primitive_initial_state].
  destruct (Qeq_bool z_km 0); [split; [reflexivity | intros _; reflexivity]|].
  cbv zeta. destruct (py_int (max_depth / z_km) <? 0) eqn:E.
  - cbn [fst snd andb].
    match goal with |- context [grid_points ?s] => destruct (grid_points s) eqn:G end.
    + rewrite bool_decide_true by exact G. split; [reflexivity | intros _; reflexivity].
    + rewrite bool_decide_false
        by (intros H'; pose proof (eq_trans (eq_sym G) H') as C; discriminate C).
      split; [reflexivity | intros _; reflexivity].
  - cbn [fst snd andb]. split; [reflexivity | intros H; contradiction].
Qed.

(** X3.  The object a returning constructor leaves.  With a non-zero layer
    thickness and a non-negative [int(max_depth / layer_thickness)], every
    cell of the working grid has a column of that many layers, all equal to
    the primitive composition; the store has no other key; the average
    target is the primitive composition; and the working grid is the
    product of the two subsets [get_subset_of_grids] computes. *)
Theorem init_uniform (londim latdim : list Q)
    (max_depth primitive fraction_upper target upper z_km proportion t0 : Q)
    (lon_lims lat_lims : Q * Q) :
  Qeq_bool z_km 0 = false ->
  0 <= py_int (max_depth / z_km) ->
  let s := fst (init londim latdim max_depth primitive fraction_upper target upper z_km
                     proportion t0 lon_lims lat_lims) in
  (forall c, c ∈ grid_points s ->
     grid_cell_state s !! grid_cell_id_of c.1 c.2
     = Some (replicate (Z.to_nat (py_int (max_depth / z_km))) (Fin primitive)))
  /\ (forall k, (forall c, c ∈ grid_points s -> k <> grid_cell_id_of c.1 c.2) ->
        grid_cell_state s !! k = None)
  /\ average_target s = PyNum primitive
  /\ (lon_subset s, lat_subset s) = get_subset_of_grids londim latdim lon_lims lat_lims.
Proof.
  intros Hz Ht. cbv zeta. unfold init. rewrite state_prep_cases.
  cbn [z_discretized_km max_depth_of_impact_melt params primitive_initial_state].
  rewrite Hz. cbv zeta.
  destruct (py_int (max_depth / z_km) <? 0) eqn:E; [lia|].
  cbn [fst]. rewrite fresh_column_uniform.
  split; [|split; [|split]].
  - intros c Hc. cbn [grid_cell_state set_grid_cell_state].
    rewrite prepared_lookup. rewrite decide_True; [reflexivity|].
    apply list_elem_of_fmap. exists c. split; [reflexivity | exact Hc].
  - intros k Hk. cbn [grid_cell_state set_grid_cell_state].
    rewrite prepared_lookup. rewrite decide_False; [apply lookup_empty|].
    intros Hin. apply list_elem_of_fmap in Hin as (c & -> & Hc). eapply Hk; eauto.
  - reflexivity.
  - cbn [lon_subset lat_subset params set_grid_cell_state].
    destruct (get_subset_of_grids londim latdim lon_lims lat_lims); reflexivity.
Qed.

(** ** The layer mixer when it raises *)

Lemma for_app {B : Type} (l1 l2 : list B) (body : B -> Py unit) (s : IMPAaCS) :
  for_ (l1 ++ l2) body s = (for_ l1 body ;; for_ l2 body) s.
Proof.
  revert s. induction l1 as [|x l1 IH]; intros s.
  - reflexivity.
  - cbn [app for_]. rewrite !seq_run. destruct (body x s) as [s' [[]|e]]; [|reflexivity].
    rewrite IH, seq_run. reflexivity.
Qed.

Lemma setitem_missing (key : cell_id) (i : Z) (v : np_float) (s : IMPAaCS) :
  grid_cell_state s !! key = None -> setitem key i v s = (s, Raise KeyError).
Proof. intros H. unfold setitem. rewrite bind_get_self, H. reflexivity. Qed.

Lemma getitem_missing (key : cell_id) (i : Z) (s : IMPAaCS) :
  grid_cell_state s !! key = None -> getitem key i s = (s, Raise KeyError).
Proof. intros H. unfold getitem. rewrite bind_get_self, H. reflexivity. Qed.

Lemma setitem_out_of_range (key : cell_id) (i : Z) (v : np_float) (s : IMPAaCS)
    (col : list np_float) :
  grid_cell_state s !! key = Some col -> Z.of_nat (length col) <= i ->
  setitem key i v s = (s, Raise IndexError).
Proof.
  intros H Hi. unfold setitem. rewrite bind_get_self, H.
  unfold py_index.
  destruct (0 <=? i) eqn:E0; [|lia].
  destruct (i <? Z.of_nat (length col)) eqn:E1; [lia|].
  destruct (i <? 0) eqn:E2; [lia|]. simpl. rewrite andb_false_r. reflexivity.
Qed.

(** X4.  A call of [state_dynamics] on a cell that is not in the store
    (layer thickness and [upper_SiO2] not zero) raises and leaves the
    object exactly as it was.  The exception is KeyError, unless the lower
    range is empty, the upper range is not, and the division for the upper
    value raises first (ZeroDivisionError). *)
Theorem state_dynamics_missing_cell (s : IMPAaCS) (d : Q) (key : cell_id) :
  grid_cell_state s !! key = None ->
  Qeq_bool (z_discretized_km s) 0 = false ->
  Qeq_bool (upper_SiO2 s) 0 = false ->
  state_dynamics d key s
  = (s, Raise (missing_cell_exn
                 (lower_layer (fraction_upper_layer s) (melt_layers_of s d))
                 (upper_layer (fraction_upper_layer s) (melt_layers_of s d))
                 (py_truediv (average_target s) (PyNum (one_minus_fractionation s))))).
Proof.
  intros Hkey Hz Hu.
  unfold state_dynamics. rewrite bind_get_self.
  unfold bind at 1. rewrite py_div_run, Hz. fold (melt_layers_of s d).
  unfold bind at 1. rewrite py_div_run, Hu.
  change (1 - (1 - target_SiO2 s / upper_SiO2 s))%Q with (one_minus_fractionation s).
  set (lower := lower_layer (fraction_upper_layer s) (melt_layers_of s d)).
  set (upper := upper_layer (fraction_upper_layer s) (melt_layers_of s d)).
  rewrite seq_run.
  destruct lower as [|i lower].
  - cbn [for_]. change ((mret tt : Py unit) s) with (s, @Ok unit tt). cbv iota beta.
    rewrite seq_run.
    destruct upper as [|j upper].
    + cbn [for_]. change ((mret tt : Py unit) s) with (s, @Ok unit tt). cbv iota beta.
      unfold bind at 1. rewrite getitem_missing by exact Hkey. reflexivity.
    + cbn [for_]. rewrite seq_run. unfold bind at 1, truediv at 1.
      destruct (py_truediv (average_target s) (PyNum (one_minus_fractionation s))).
      * cbn [mret Py_ret]. rewrite setitem_missing by exact Hkey. reflexivity.
      * reflexivity.
  - cbn [for_]. rewrite seq_run, setitem_missing by exact Hkey.
    destruct upper, (py_truediv _ _); reflexivity.
Qed.

(** X5.  An impactor too large for the column.  When [melt_layers]
    exceeds the length of the column and the lower range is not empty (the
    split index is non-negative and below [melt_layers]), [state_dynamics]
    raises IndexError in its first loop, after it has set the layers from
    the split index to the end of the column to the primitive composition:
    those writes stay, the layers above the split index are as before, and
    nothing else of the object changes. *)
Theorem state_dynamics_too_deep (s : IMPAaCS) (d : Q) (key : cell_id)
    (col : list np_float) :
  grid_cell_state s !! key = Some col ->
  Qeq_bool (z_discretized_km s) 0 = false ->
  Qeq_bool (upper_SiO2 s) 0 = false ->
  let m := melt_layers_of s d in
  let sp := split_index (fraction_upper_layer s) m in
  0 <= sp < m ->
  Z.of_nat (length col) < m ->
  exists col',
    state_dynamics d key s = (with_column key col' s, Raise IndexError)
    /\ length col' = length col
    /\ (forall n : nat, sp <= Z.of_nat n -> (n < length col)%nat ->
          col' !! n = Some (Fin (primitive_initial_state s)))
    /\ (forall n : nat, Z.of_nat n < sp -> col' !! n = col !! n).
Proof.
  intros Hcol Hz Hu m sp Hsp Hlen.
  set (len := Z.of_nat (length col)) in *.
  set (top := Z.max sp len).
  exists (write_range (Fin (primitive_initial_state s)) (py_range sp top) col).
  assert (Hin : forall i, i ∈ py_range sp top -> 0 <= i < len).
  { intros i Hi. apply elem_of_py_range in Hi. lia. }
  split; [|split; [apply write_range_length | split]].
  - unfold state_dynamics. rewrite bind_get_self.
    unfold bind at 1. rewrite py_div_run, Hz. fold (melt_layers_of s d). fold m.
    unfold bind at 1. rewrite py_div_run, Hu.
    rewrite seq_run. unfold lower_layer at 1. fold sp.
    rewrite <- (py_range_app sp top m) by lia.
    rewrite for_app, seq_run.
    rewrite (for_setitem_run key (Fin (primitive_initial_state s)) _ (py_range sp top) s col);
      [| reflexivity | exact Hcol | exact Hin].
    assert (E : py_range top m = top :: py_range (top + 1) m).
    { unfold py_range. rewrite seqZ_cons by lia. f_equal. f_equal; lia. }
    rewrite E. cbn [for_]. rewrite seq_run.
    rewrite (setitem_out_of_range key top _ _
               (write_range (Fin (primitive_initial_state s)) (py_range sp top) col));
      [reflexivity | apply with_column_lookup | rewrite write_range_length; lia].
  - intros n H1 H2.
    rewrite write_range_lookup; [| intros i Hi; apply Hin in Hi; lia | exact H2].
    rewrite decide_True; [reflexivity|]. apply elem_of_py_range. lia.
  - intros n H1.
    destruct (decide (n < length col)%nat) as [H2|H2].
    + rewrite write_range_lookup; [| intros i Hi; apply Hin in Hi; lia | exact H2].
      rewrite decide_False; [reflexivity|]. rewrite elem_of_py_range. lia.
    + rewrite !lookup_ge_None_2; [reflexivity | lia | rewrite write_range_length; lia].
Qed.

(** ** Events *)

Lemma py_int_below_one (q : Q) : (q < 1)%Q -> py_int q <= 0.
Proof.
  intros H. destruct q as [n dn]. unfold py_int. cbn [Qnum Qden].
  assert (Hn : n < Z.pos dn) by (unfold Qlt in H; simpl in H; lia).
  destruct (Z.le_gt_cases 0 n) as [H0|H0].
  - rewrite Z.quot_small by lia. lia.
  - apply Z.quot_le_upper_bound; lia.
Qed.

(** X6.  An impactor whose melt depth is less than one layer changes no
    column.  With a positive layer thickness, an upper fraction between 0
    and 1 and [diameter * proportion_melt_from_impact < layer_thickness],
    [melt_layers] is at most 0 and an [update] with that diameter, at any
    location and time, returning or raising, leaves the store as it
    was. *)
Theorem shallow_impact_no_op (distance : Q -> Q -> Q -> Q -> Q) (s : IMPAaCS)
    (impact_loc : Q * Q) (d t : Q) :
  (0 < z_discretized_km s)%Q ->
  (0 <= fraction_upper_layer s <= 1)%Q ->
  (d * proportion_melt_from_impact s < z_discretized_km s)%Q ->
  melt_layers_of s d <= 0
  /\ grid_cell_state (fst (update distance impact_loc d t s)) = grid_cell_state s.
Proof.
  intros Hz Hf Hd.
  assert (Hm : melt_layers_of s d <= 0).
  { unfold melt_layers_of. apply py_int_below_one.
    apply Qlt_shift_div_r; [exact Hz | lra]. }
  split; [exact Hm|].
  apply store_frame_nothing.
  destruct (update_keeps distance impact_loc d t s (fun _ _ => False)) as (_ & H & _);
    [|exact H].
  intros c i len n _ Hi _.
  apply mixer_ranges_within in Hi; [lia | exact Hf].
Qed.


(** ** The footprint *)

Lemma List_filter_sublist {A : Type} (f : A -> bool) (l : list A) :
  sublist (List.filter f l) l.
Proof.
  induction l as [|x l IH]; [constructor|].
  cbn [List.filter]. destruct (f x); [apply sublist_skip | apply sublist_cons]; exact IH.
Qed.

(** X8.  The footprint never leaves the working grid and never reaches
    far.  For every impact location and crater radius, the cells
    [find_the_grid] leaves in [impacted_grid_cells] are cells of the
    working grid, in grid order and without repetition beyond the grid's
    own, and each of them is within the crater radius of the impact or
    closer to it than 30 km. *)
Theorem footprint_within_reach (distance : Q -> Q -> Q -> Q -> Q)
    (impact_loc : Q * Q) (s : IMPAaCS) :
  let fp := impacted_grid_cells (fst (find_the_grid distance impact_loc s)) in
  sublist fp (grid_points s)
  /\ forall c, c ∈ fp ->
       (cell_distance distance impact_loc c <= crator_radius s
        \/ cell_distance distance impact_loc c < 30)%Q.
Proof.
  cbv zeta. rewrite find_the_grid_run.
  cbn [fst impacted_grid_cells set_impacted_grid_cells].
  unfold footprint.
  destruct (scan_grid_spec distance impact_loc (crator_radius s) (grid_points s))
    as (Dmin & -> & _ & _).
  assert (Hw : forall c,
             c ∈ within_radius distance impact_loc (crator_radius s) (grid_points s) ->
             (cell_distance distance impact_loc c <= crator_radius s)%Q).
  { intros c Hc. apply elem_of_within_radius in Hc. apply Hc. }
  destruct (Z.of_nat (length _) <? 1).
  - destruct (Qltb Dmin 30) eqn:Hb.
    + split; [apply List_filter_sublist|].
      intros [ilon ilat] Hc. right.
      apply list_elem_of_In, filter_In in Hc as [_ Hc].
      apply Qeq_bool_iff in Hc. apply Qltb_lt in Hb.
      unfold cell_distance. cbn [fst snd]. rewrite Hc. exact Hb.
    + split; [apply List_filter_sublist|]. intros c Hc. left. apply Hw, Hc.
  - split; [apply List_filter_sublist|]. intros c Hc. left. apply Hw, Hc.
Qed.

(** ** The target averager at its edges *)

Lemma np_sum_nil_slice (col : list np_float) : np_sum (slice_to 0 col) = Fin 0.
Proof. reflexivity. Qed.

(** With [z_layers = 0] every term of the sum is zero; the sum is a NumPy
    scalar as soon as one footprint cell is in the store. *)
Lemma target_fold_zero (s : IMPAaCS) (cells : list (Q * Q)) (a : pyval) :
  z_layers s = 0 ->
  (exists q, to_np a = Fin q /\ (q == 0)%Q) ->
  let r := fold_left (fun acc '(ilon, ilat) =>
      let grid_cell_id := grid_cell_id_of ilon ilat in
      match grid_cell_state s !! grid_cell_id with
      | Some column => py_add acc (NpNum (np_sum (slice_to (z_layers s) column)))
      | None => py_add acc (PyNum (primitive_initial_state s * inject_Z (z_layers s)))
      end) cells a in
  (exists q, to_np r = Fin q /\ (q == 0)%Q)
  /\ ((exists x, a = NpNum x)
      \/ (exists c, c ∈ cells /\ is_Some (grid_cell_state s !! grid_cell_id_of c.1 c.2)) ->
      exists x, r = NpNum x)
  /\ ((exists q, a = PyNum q) ->
      (forall c, c ∈ cells -> grid_cell_state s !! grid_cell_id_of c.1 c.2 = None) ->
      exists q, r = PyNum q).
Proof.
  intros Hz. revert a. induction cells as [|[ilon ilat] cells IH]; intros a Ha; cbv zeta.
  - cbn [fold_left]. split; [exact Ha|]. split.
    + intros [H|(c & Hc & _)]; [exact H | inversion Hc].
    + intros H _. exact H.
  - cbn [fold_left]. rewrite Hz.
    destruct Ha as (q & Hq & Hq0).
    destruct (grid_cell_state s !! grid_cell_id_of ilon ilat) as [col|] eqn:Hc.
    + set (a' := py_add a (NpNum (np_sum (slice_to 0 col)))).
      assert (Ha' : exists q', to_np a' = Fin q' /\ (q' == 0)%Q).
      { exists (q + 0)%Q. unfold a'. rewrite to_np_py_add, Hq. split; [reflexivity | lra]. }
      assert (Hnp : exists x, a' = NpNum x) by (unfold a'; destruct a; eauto).
      destruct (IH a' Ha') as (R1 & R2 & _). cbv zeta in R1, R2. rewrite Hz in R1, R2.
      split; [exact R1|]. split; [intros _; apply R2; left; exact Hnp|].
      intros _ Hall. specialize (Hall (ilon, ilat)). cbn [fst snd] in Hall.
      rewrite Hc in Hall. discriminate Hall. left.
    + set (a' := py_add a (PyNum (primitive_initial_state s * inject_Z 0))).
      assert (Ha' : exists q', to_np a' = Fin q' /\ (q' == 0)%Q).
      { exists (q + primitive_initial_state s * inject_Z 0)%Q. unfold a'.
        rewrite to_np_py_add, Hq. split; [reflexivity|].
        change (inject_Z 0) with 0%Q. lra. }
      destruct (IH a' Ha') as (R1 & R2 & R3). cbv zeta in R1, R2, R3.
      rewrite Hz in R1, R2, R3.
      split; [exact R1|]. split.
      * intros [(x & ->)|(c & Hin & Hsome)].
        -- apply R2. left. unfold a'. eauto.
        -- apply R2. right. apply elem_of_cons in Hin as [->|Hin].
           ++ cbn [fst snd] in Hsome. rewrite Hc in Hsome. destruct Hsome; discriminate.
           ++ eauto.
      * intros (q0 & ->) Hall. apply R3.
        -- unfold a'. simpl. eauto.
        -- intros c Hin. apply Hall. right. exact Hin.
Qed.

(** X9.  [get_average_target] where the mean has no terms.  On an empty
    footprint it raises ZeroDivisionError and changes nothing (the test
    [len(self.impacted_grid_cells) > 0] in [update] is what keeps it from
    being called there).  With [z_layers = 0] (an impactor of diameter 0)
    and a footprint with a cell that is in the store, it returns and sets
    [average_target] to nan; with [z_layers = 0] and no footprint cell in
    the store it raises ZeroDivisionError. *)
Theorem get_average_target_no_terms (s : IMPAaCS) (d : Q) :
  (impacted_grid_cells s = [] -> get_average_target d s = (s, Raise ZeroDivisionError))
  /\ (z_layers s = 0 ->
      (exists c, c ∈ impacted_grid_cells s
                 /\ is_Some (grid_cell_state s !! grid_cell_id_of c.1 c.2)) ->
      get_average_target d s = (set_average_target (NpNum NaN) s, Ok tt))
  /\ (z_layers s = 0 ->
      (forall c, c ∈ impacted_grid_cells s ->
                 grid_cell_state s !! grid_cell_id_of c.1 c.2 = None) ->
      get_average_target d s = (s, Raise ZeroDivisionError)).
Proof.
  split; [|split].
  - intros H. rewrite get_average_target_run. unfold target_sum. rewrite H. reflexivity.
  - intros Hz Hc. rewrite get_average_target_run, Hz, Z.mul_0_r.
    destruct (target_fold_zero s (impacted_grid_cells s) (PyNum 0) Hz) as (R1 & R2 & _).
    { exists 0%Q. split; reflexivity. }
    cbv zeta in R1, R2. fold (target_sum s) in R1, R2.
    destruct R2 as (x & Hx); [right; exact Hc|].
    destruct R1 as (q & Hq & Hq0). rewrite Hx in *. cbn [to_np] in Hq. subst x.
    cbn [py_truediv to_np np_div]. change (Qeq_bool (inject_Z 0) 0) with true. cbv iota.
    assert (E : Qcompare q 0 = Eq) by (apply Qeq_alt; exact Hq0).
    rewrite E. reflexivity.
  - intros Hz Hc. rewrite get_average_target_run, Hz, Z.mul_0_r.
    destruct (target_fold_zero s (impacted_grid_cells s) (PyNum 0) Hz) as (_ & _ & R3).
    { exists 0%Q. split; reflexivity. }
    cbv zeta in R3. fold (target_sum s) in R3.
    destruct R3 as (q & Hq); [eauto | exact Hc|].
    rewrite Hq. reflexivity.
Qed.

(** ** Sampling, its outcome and the shape of its result *)

Lemma re_bin_scan_range (x : np_float) (s_max : Z) (bins : list Z) (b : Z) :
  re_bin_scan x s_max bins = Some b -> b ∈ bins \/ b = s_max.
Proof.
  induction bins as [|s bins IH]; [discriminate|].
  cbn [re_bin_scan].
  destruct (np_leb x (Fin (inject_Z s))); [intros [= <-]; left; left|].
  destruct (np_geb x (Fin (inject_Z s_max))); [intros [= <-]; right; reflexivity|].
  intros H. destruct (IH H) as [Hin| ->]; [left; right; exact Hin | right; reflexivity].
Qed.

Lemma sample_cells_missing (store : gmap cell_id (list np_float)) (cells : list (Q * Q))
    (acc : list (option Z)) :
  (exists c, c ∈ cells /\ store !! grid_cell_id_of c.1 c.2 = None) ->
  sample_cells store cells acc = Raise KeyError.
Proof.
  revert acc. induction cells as [|[ilon ilat] cells IH]; intros acc (c & Hc & Hnone).
  - inversion Hc.
  - cbn [sample_cells].
    destruct (store !! grid_cell_id_of ilon ilat) as [col|] eqn:E; [|reflexivity].
    assert (Hrest : exists c, c ∈ cells /\ store !! grid_cell_id_of c.1 c.2 = None).
    { apply elem_of_cons in Hc as [->|Hc]; [|eauto].
      cbn [fst snd] in Hnone. rewrite E in Hnone. discriminate. }
    destruct (np_isnan (np_mean (take 2 col))); [apply IH, Hrest|].
    rewrite re_bin_sio2_default. apply IH, Hrest.
Qed.

Lemma sample_cells_bins (store : gmap cell_id (list np_float)) (cells : list (Q * Q))
    (acc : list (option Z)) :
  (forall c, c ∈ cells -> is_Some (store !! grid_cell_id_of c.1 c.2)) ->
  exists rest,
    sample_cells store cells acc = Ok (acc ++ rest)
    /\ forall b, Some b ∈ rest -> 1 <= b <= 100.
Proof.
  revert acc. induction cells as [|[ilon ilat] cells IH]; intros acc Hall.
  - exists []. rewrite app_nil_r. split; [reflexivity|]. intros b Hb. inversion Hb.
  - cbn [sample_cells].
    destruct (Hall (ilon, ilat)) as [col Hcol]; [left|]. cbn [fst snd] in Hcol.
    rewrite Hcol.
    assert (Hall' : forall c, c ∈ cells -> is_Some (store !! grid_cell_id_of c.1 c.2))
      by (intros c Hc; apply Hall; right; exact Hc).
    destruct (np_isnan (np_mean (take 2 col))); [apply IH, Hall'|].
    rewrite re_bin_sio2_default.
    destruct (IH (acc ++ [re_bin_scan (np_mean (take 2 col)) 100 (seqZ 1 99)]) Hall')
      as (rest & Hrun & Hrest).
    exists (re_bin_scan (np_mean (take 2 col)) 100 (seqZ 1 99) :: rest).
    split; [rewrite Hrun, <- app_assoc; reflexivity|].
    intros b Hb. apply elem_of_cons in Hb as [Hb|Hb]; [|apply Hrest, Hb].
    symmetry in Hb. apply re_bin_scan_range in Hb as [Hin| ->]; [|lia].
    apply elem_of_seqZ in Hin. lia.
Qed.

Lemma strictly_increasing (l : list Z) :
  StronglySorted Z.le l -> NoDup l -> StronglySorted Z.lt l.
Proof.
  induction 1 as [|x l Hs IH Hall]; intros Hnd; [constructor|].
  apply NoDup_cons in Hnd as [Hx Hnd]. constructor; [apply IH, Hnd|].
  rewrite Forall_forall in *. intros y Hy.
  assert (x <= y) by (apply Hall, Hy).
  assert (x <> y) by (intros ->; contradiction).
  lia.
Qed.

Lemma np_unique_increasing (l : list Z) : StronglySorted Z.lt (np_unique l).
Proof.
  apply strictly_increasing; [|apply np_unique_NoDup].
  apply Sorted_StronglySorted; [exact _|]. unfold np_unique.
  apply Sorted_merge_sort. exact _.
Qed.

Lemma bar_data_keys (bar_list : list Z) : (bar_data bar_list).*1 = np_unique bar_list.
Proof.
  unfold bar_data. rewrite <- list_fmap_compose.
  induction (np_unique bar_list) as [|u us IH]; [reflexivity|].
  cbn [fmap list_fmap]. f_equal. exact IH.
Qed.

Lemma bar_data_entry (bar_list : list Z) (b : Z) (v : Q) :
  (b, v) ∈ bar_data bar_list -> b ∈ bar_list /\ (0 < v <= 100)%Q.
Proof.
  unfold bar_data. intros H. apply list_elem_of_fmap in H as (u & E & Hu).
  injection E as Eb Ev. subst b v.
  rewrite elem_of_np_unique in Hu. split; [exact Hu|].
  set (n := length bar_list). set (k := count_occ Z.eq_dec bar_list u).
  assert (Hk : (0 < k)%nat).
  { apply count_occ_In. apply list_elem_of_In. exact Hu. }
  assert (Hkn : (k <= n)%nat) by apply count_occ_bound.
  assert (Hn : (0 < inject_Z (Z.of_nat n))%Q).
  { change 0%Q with (inject_Z 0). rewrite <- Zlt_Qlt. lia. }
  assert (Hk' : (0 < inject_Z (100 * Z.of_nat k))%Q).
  { change 0%Q with (inject_Z 0). rewrite <- Zlt_Qlt. lia. }
  assert (Hle : (inject_Z (100 * Z.of_nat k) <= 100 * inject_Z (Z.of_nat n))%Q).
  { change 100%Q with (inject_Z 100). rewrite <- inject_Z_mult, <- Zle_Qle. lia. }
  split.
  - apply Qlt_shift_div_l; [exact Hn | lra].
  - apply Qle_shift_div_r; [exact Hn | exact Hle].
Qed.

(** X10.  [do_sample_percents] either raises KeyError and changes nothing
    (some cell of the working grid has no column in the store) or returns
    having assigned [sample_percents] and nothing else.  The mapping it
    assigns has its bins in strictly increasing order, every bin between 1
    and 100, and every percentage above 0 and at most 100. *)
Theorem do_sample_percents_outcome (s : IMPAaCS) :
  ((exists c, c ∈ grid_points s /\ grid_cell_state s !! grid_cell_id_of c.1 c.2 = None) ->
   do_sample_percents s = (s, Raise KeyError))
  /\ ((forall c, c ∈ grid_points s ->
                 is_Some (grid_cell_state s !! grid_cell_id_of c.1 c.2)) ->
      exists m,
        do_sample_percents s = (set_sample_percents m s, Ok tt)
        /\ StronglySorted Z.lt m.*1
        /\ forall b v, (b, v) ∈ m -> 1 <= b <= 100 /\ (0 < v <= 100)%Q).
Proof.
  split.
  - intros H. unfold do_sample_percents. rewrite bind_get_self.
    rewrite sample_cells_missing by exact H. reflexivity.
  - intros Hall. unfold do_sample_percents. rewrite bind_get_self.
    destruct (sample_cells_bins (grid_cell_state s) (grid_points s) [] Hall)
      as (rest & Hrun & Hrest).
    rewrite Hrun. cbn [app]. eexists. split; [reflexivity|]. split.
    + rewrite bar_data_keys. apply np_unique_increasing.
    + intros b v Hbv. apply bar_data_entry in Hbv as [Hb Hv]. split; [|exact Hv].
      apply list_elem_of_omap in Hb as (ob & Hob & E). cbn in E. subst ob.
      apply Hrest, Hob.
Qed.

(** ** Rebinning with other parameters *)

Lemma py_range3_positive (a b d : Z) :
  0 < d ->
  exists bins,
    py_range3 a b d = Some bins
    /\ (forall s, s ∈ bins -> a <= s < b)
    /\ (b <= a -> bins = [])
    /\ (a < b -> exists rest, bins = a :: rest).
Proof.
  intros Hd. unfold py_range3.
  destruct (d =? 0) eqn:E0; [lia|]. destruct (0 <? d) eqn:E1; [|lia].
  set (n := (b - a + d - 1) / d).
  assert (Hn : d * n <= b - a + d - 1) by (apply Z.mul_div_le; lia).
  assert (Hn' : b - a + d - 1 < d * (n + 1)).
  { pose proof (Z.mod_pos_bound (b - a + d - 1) d Hd) as Hm.
    pose proof (Z.div_mod (b - a + d - 1) d ltac:(lia)) as Hdm. fold n in Hdm. lia. }
  eexists. split; [reflexivity|]. split; [|split].
  - intros s Hs. apply list_elem_of_fmap in Hs as (k & -> & Hk).
    apply elem_of_seqZ in Hk. nia.
  - intros Hba. assert (n <= 0) by nia.
    unfold seqZ. replace (Z.to_nat n) with 0%nat by lia. reflexivity.
  - intros Hab. assert (0 < n) by nia.
    rewrite seqZ_cons by lia. cbn [map]. eexists. f_equal. lia.
Qed.

Lemma re_bin_scan_nan (s_max : Z) (bins : list Z) : re_bin_scan NaN s_max bins = None.
Proof. induction bins as [|s bins IH]; [reflexivity | exact IH]. Qed.

(** X11.  [re_bin_sio2] for other limits and steps.  A step of 0 raises
    ValueError.  With a positive step: when [s_max <= s_min] the range is
    empty and the result is [None] for every value, even one above
    [s_max]; when [s_min < s_max], a value at most [s_min] gives [s_min],
    any other value at least [s_max] gives [s_max], and nan gives [None];
    and a bin, when one is returned, lies between [s_min] and [s_max]. *)
Theorem re_bin_sio2_parameters (x : np_float) (s_min s_max ds : Z) :
  (ds = 0 -> re_bin_sio2 x s_min s_max ds = Raise ValueError)
  /\ (0 < ds -> s_max <= s_min -> re_bin_sio2 x s_min s_max ds = Ok None)
  /\ (0 < ds -> s_min < s_max ->
      (np_leb x (Fin (inject_Z s_min)) = true ->
         re_bin_sio2 x s_min s_max ds = Ok (Some s_min))
      /\ (np_leb x (Fin (inject_Z s_min)) = false ->
          np_geb x (Fin (inject_Z s_max)) = true ->
          re_bin_sio2 x s_min s_max ds = Ok (Some s_max))
      /\ (np_isnan x = true -> re_bin_sio2 x s_min s_max ds = Ok None))
  /\ (0 < ds -> forall b, re_bin_sio2 x s_min s_max ds = Ok (Some b) -> s_min <= b <= s_max).
Proof.
  split; [|split; [|split]].
  - intros ->. unfold re_bin_sio2, py_range3. reflexivity.
  - intros Hd Hle. unfold re_bin_sio2.
    destruct (py_range3_positive s_min s_max ds Hd) as (bins & -> & _ & Hnil & _).
    rewrite (Hnil Hle). reflexivity.
  - intros Hd Hlt. unfold re_bin_sio2.
    destruct (py_range3_positive s_min s_max ds Hd) as (bins & -> & _ & _ & Hcons).
    destruct (Hcons Hlt) as (rest & ->). cbn [re_bin_scan].
    split; [|split].
    + intros ->. reflexivity.
    + intros -> ->. reflexivity.
    + intros Hnan. destruct x; try discriminate Hnan.
      change (np_leb NaN ?y) with false. change (np_geb NaN ?y) with false.
      cbv iota. rewrite re_bin_scan_nan. reflexivity.
  - intros Hd b. unfold re_bin_sio2.
    destruct (py_range3_positive s_min s_max ds Hd) as (bins & -> & Hin & Hnil & _).
    intros [= H].
    destruct (Z.le_gt_cases s_max s_min) as [Hle|Hlt].
    + rewrite (Hnil Hle) in H. discriminate H.
    + apply re_bin_scan_range in H as [Hb| ->]; [apply Hin in Hb; lia | lia].
Qed.

(** ** The history of the monitored cell *)

Lemma trace_grows_refl (t : Trace) : trace_grows t t.
Proof. unfold trace_grows. repeat split; (lia || reflexivity). Qed.

Lemma trace_grows_trans (a b c : Trace) :
  trace_grows a b -> trace_grows b c -> trace_grows a c.
Proof.
  intros (A1 & A2 & A3 & A4 & A5) (B1 & B2 & B3 & B4 & B5).
  unfold trace_grows. repeat split; (lia || (etransitivity; eassumption)).
Qed.

Lemma state_dynamics_trace (d : Q) (key : cell_id) (s : IMPAaCS) :
  trace (fst (state_dynamics d key s)) = trace s.
Proof.
  destruct (state_dynamics_keeps (params s)
              (fun x => params x = params s /\ trace x = trace s)
              (fun _ _ => True)) with (d := d) (key := key) (s := s) as [[_ H] _];
    try tauto; auto.
Qed.

Lemma getitem_ok (key : cell_id) (i : Z) (s s' : IMPAaCS) (x : np_float) :
  getitem key i s = (s', Ok x) ->
  exists col, grid_cell_state s !! key = Some col /\ (0 < length col)%nat.
Proof.
  unfold getitem. rewrite bind_get_self.
  destruct (grid_cell_state s !! key) as [col|]; [|discriminate].
  destruct (py_index (length col) i) as [n|] eqn:E; [|discriminate].
  intros _. exists col. split; [reflexivity|]. apply py_index_lt in E. lia.
Qed.

(** A returning call leaves the cell in the store with a non-empty
    column. *)
Lemma state_dynamics_ok_column (d : Q) (key : cell_id) (s s' : IMPAaCS) :
  state_dynamics d key s = (s', Ok tt) ->
  exists col x, grid_cell_state s' !! key = Some col /\ col !! 0%nat = Some x.
Proof.
  unfold state_dynamics. rewrite bind_get_self.
  unfold bind at 1. rewrite py_div_run.
  destruct (Qeq_bool (z_discretized_km s) 0); [discriminate|].
  unfold bind at 1. rewrite py_div_run.
  destruct (Qeq_bool (upper_SiO2 s) 0); [discriminate|].
  rewrite seq_run.
  match goal with |- context [for_ ?l ?b s] => destruct (for_ l b s) as [s1 [[]|e]] end;
    [|discriminate].
  rewrite seq_run.
  match goal with |- context [for_ ?l ?b s1] => destruct (for_ l b s1) as [s2 [[]|e]] end;
    [|discriminate].
  unfold bind at 1.
  destruct (getitem key 0 s2) as [s2' [wt|e]] eqn:G; [|discriminate].
  pose proof (getitem_fst key 0 s2) as F. rewrite G in F. cbn [fst] in F. subst s2'.
  apply getitem_ok in G as (col & Hcol & Hlen).
  match goal with
  | |- ?m s2 = _ -> _ =>
      assert (K : keeps (fun _ => True) (store_frame (fun _ _ => True)) m)
  end.
  { apply keeps_seq; [apply store_frame_trans | |].
    - apply keeps_for; [apply store_frame_refl | apply store_frame_trans |]. intros i _.
      apply keeps_truediv. intros v. apply keeps_setitem; auto.
    - apply keeps_for; [apply store_frame_refl | apply store_frame_trans |]. intros i _.
      apply keeps_getitem. intros v. apply keeps_setitem; auto. }
  intros E. destruct (K s2 I) as [_ Hfr]. rewrite E in Hfr. cbn [fst] in Hfr.
  destruct (store_frame_column _ _ _ _ _ Hfr Hcol) as (col' & H1 & H2 & _).
  destruct (lookup_lt_is_Some_2 col' 0%nat) as [x Hx]; [lia|].
  exists col', x. split; [exact H1 | exact Hx].
Qed.

(** [test_one_grid_cell] on the monitored cell when its column is not
    empty, and on any other cell. *)
Lemma test_one_grid_cell_hit (d : Q) (s : IMPAaCS) (col : list np_float) (x : np_float) :
  grid_cell_state s !! impact_test_id = Some col -> col !! 0%nat = Some x ->
  test_one_grid_cell impact_test_id d s =
  (set_trace
     {| count_test_hits := count_test_hits s + 1;
        test_time := test_time s ++ [sim_time s];
        impactors_at_test_cell := impactors_at_test_cell s ++ [d];
        average_test_target_list := average_test_target_list s ++ [average_target s];
        top_layer_at_test_cell := top_layer_at_test_cell s ++ [NpNum x] |} s, Ok tt).
Proof.
  intros Hcol Hx. unfold test_one_grid_cell. rewrite decide_True by reflexivity.
  rewrite seq_modify. unfold bind.
  rewrite (getitem_run impact_test_id 0 _ col x); [reflexivity | exact Hcol | lia | exact Hx].
Qed.

Lemma test_one_grid_cell_other (key : cell_id) (d : Q) (s : IMPAaCS) :
  key <> impact_test_id -> test_one_grid_cell key d s = (s, Ok tt).
Proof. intros H. unfold test_one_grid_cell. rewrite decide_False by exact H. reflexivity. Qed.

Lemma mix_cells_impacted (d : Q) (order : list (Q * Q)) (s : IMPAaCS) :
  impacted_grid_cells (fst (mix_cells d order s)) = impacted_grid_cells s.
Proof.
  destruct (mix_cells_keeps (params s)
              (fun x => params x = params s
                        /\ impacted_grid_cells x = impacted_grid_cells s)
              (fun _ _ => True)) with (d := d) (cells := order) (s := s) as [[_ H] _];
    try tauto; auto.
Qed.

Lemma mix_cells_trace (d : Q) (cells : list (Q * Q)) (s : IMPAaCS) :
  let s' := fst (mix_cells d cells s) in
  trace_grows s s'
  /\ (trace_in_step s -> trace_in_step s')
  /\ (impact_test_id ∉ cell_keys cells -> trace s' = trace s).
Proof.
  revert s. induction cells as [|[ilon ilat] cells IH]; intros s; cbv zeta.
  - cbn [mix_cells for_ fst]. split; [apply trace_grows_refl | auto].
  - unfold mix_cells. cbn [for_]. fold (mix_cells d cells).
    set (key := grid_cell_id_of ilon ilat).
    rewrite !seq_run.
    pose proof (state_dynamics_trace d key s) as Ht.
    pose proof (state_dynamics_ok_column d key s) as Hok.
    destruct (state_dynamics d key s) as [s1 [[]|e]]; cbn [fst snd] in Ht.
    2:{ cbn [fst]. rewrite Ht. split; [apply trace_grows_refl | auto]. }
    destruct (Hok s1 eq_refl) as (col & x & Hcol & Hx).
    destruct (decide (key = impact_test_id)) as [E|E].
    + rewrite E in *. rewrite (test_one_grid_cell_hit d s1 col x Hcol Hx).
      match goal with |- context [mix_cells d cells ?s2] => destruct (IH s2) as (G & S & _) end.
      cbv zeta in G, S. cbn [trace set_trace] in G, S.
      split; [|split].
      * eapply trace_grows_trans; [|exact G]. rewrite <- Ht.
        unfold trace_grows. cbn.
        repeat split; (lia || (apply prefix_app_r; reflexivity)).
      * intros (T1 & T2 & T3 & T4). apply S. rewrite <- Ht in T1, T2, T3, T4.
        unfold trace_in_step. cbn. rewrite !length_app. cbn [length].
        repeat split; lia.
      * intros Hnot. exfalso. apply Hnot. unfold cell_keys. rewrite fmap_cons.
        change (grid_cell_id_of (ilon, ilat).1 (ilon, ilat).2) with key.
        rewrite E. left.
    + rewrite (test_one_grid_cell_other key d s1 E).
      destruct (IH s1) as (G & S & U). cbv zeta in G, S, U. rewrite Ht in G, S, U.
      split; [exact G|]. split; [exact S|].
      intros Hnot. apply U. intros Hin. apply Hnot. right. exact Hin.
Qed.

(** One event and the history of the monitored cell. *)
Lemma update_trace (distance : Q -> Q -> Q -> Q -> Q) (s : IMPAaCS)
    (impact_loc : Q * Q) (d t : Q) :
  let s' := fst (update distance impact_loc d t s) in
  trace_grows s s'
  /\ (trace_in_step s -> trace_in_step s')
  /\ (impact_test_id ∉ cell_keys (impacted_grid_cells s') -> trace s' = trace s).
Proof.
  cbv zeta. rewrite update_run.
  destruct (Qeq_bool (z_discretized_km s) 0) eqn:Hz.
  { cbn [fst]. split; [apply trace_grows_refl | auto]. }
  cbv zeta.
  set (fp := footprint distance impact_loc (10 * d / 2) (grid_points s)).
  set (s3 := set_impacted_grid_cells fp (with_dimensions d (set_sim_time t s))).
  destruct (0 <? Z.of_nat (length (impacted_grid_cells s3)));
    [|cbn [fst]; split; [apply trace_grows_refl | auto]].
  rewrite seq_run, get_average_target_run.
  destruct (py_truediv _ _) as [v|];
    [|cbn [fst]; split; [apply trace_grows_refl | auto]].
  unfold loop_impact_grid. rewrite bind_get_self.
  change (impacted_grid_cells (set_average_target v s3)) with fp.
  destruct (mix_cells_trace d fp (set_average_target v s3)) as (G & S & U).
  cbv zeta in G, S, U. split; [exact G|]. split; [exact S|].
  rewrite mix_cells_impacted. exact U.
Qed.

(** X12.  The history of the monitored cell is append-only.  Across one
    [update], returning or raising, each of the four lists of the trace
    keeps its entries and [count_test_hits] does not decrease; and when the
    monitored cell is not in the footprint the event leaves, the trace is
    unchanged. *)
Theorem trace_append_only (distance : Q -> Q -> Q -> Q -> Q) (s : IMPAaCS)
    (impact_loc : Q * Q) (d t : Q) :
  let s' := fst (update distance impact_loc d t s) in
  trace_grows s s'
  /\ (impact_test_id ∉ cell_keys (impacted_grid_cells s') -> trace s' = trace s).
Proof.
  destruct (update_trace distance s impact_loc d t) as (G & _ & U).
  split; [exact G | exact U].
Qed.

Lemma state_prep_trace (s : IMPAaCS) : trace (fst (state_prep s)) = trace s.
Proof.
  rewrite state_prep_cases.
  destruct (Qeq_bool (z_discretized_km s) 0); [reflexivity|]. cbv zeta.
  destruct (_ <? 0); reflexivity.
Qed.

(** X13.  The history of the monitored cell stays in step.  After the
    constructor (whatever its arguments, returned or raised) and after any
    finite sequence of [update] events, returning or raising, each of the
    four lists of the trace has exactly [count_test_hits + 1] entries: an
    event either records a hit in all four lists or in none. *)
Theorem trace_in_step_invariant (distance : Q -> Q -> Q -> Q -> Q)
    (londim latdim : list Q)
    (max_depth primitive fraction_upper target upper z_km proportion t0 : Q)
    (lon_lims lat_lims : Q * Q) (events : list (Q * Q * Q * Q)) :
  trace_in_step
    (run_events distance events
       (fst (init londim latdim max_depth primitive fraction_upper target upper z_km
                  proportion t0 lon_lims lat_lims))).
Proof.
  unfold init.
  match goal with
  | |- context [state_prep ?s0] =>
      assert (H0 : trace_in_step (fst (state_prep s0)))
        by (rewrite state_prep_trace; repeat split);
      revert H0; generalize (fst (state_prep s0))
  end.
  induction events as [|[[loc d] t] events IH]; intros s Hs; [exact Hs|].
  cbn [run_events fold_left]. apply IH.
  apply (update_trace distance s loc d t). exact Hs.
Qed.

(** ** Rounding, and events in sequence *)

Lemma np_round1_idempotent (x : np_float) : np_round1 (np_round1 x) = np_round1 x.
Proof.
  destruct x as [q| | |]; try reflexivity. cbn [np_round1]. do 3 f_equal.
  rewrite (round_half_even_comp _ (inject_Z (round_half_even (q * 10)))).
  - apply round_half_even_inject_Z.
  - field.
Qed.

(** X14.  Rounding law.  After a call of [state_dynamics] that raises
    nothing (the conditions of the postcondition), every layer below
    [melt_layers] holds a value that [np.round(., 1)] leaves as it is: a
    multiple of one tenth, or a non-finite value. *)
Theorem disturbed_layers_rounded (s : IMPAaCS) (d : Q) (key : cell_id)
    (col : list np_float) (u : pyval) :
  grid_cell_state s !! key = Some col ->
  Qeq_bool (z_discretized_km s) 0 = false ->
  Qeq_bool (upper_SiO2 s) 0 = false ->
  py_truediv (average_target s) (PyNum (one_minus_fractionation s)) = Some u ->
  (0 <= fraction_upper_layer s <= 1)%Q ->
  melt_layers_of s d <= Z.of_nat (length col) ->
  (0 < length col)%nat ->
  snd (state_dynamics d key s) = Ok tt
  /\ forall i, 0 <= i < melt_layers_of s d ->
       exists x, layer (fst (state_dynamics d key s)) key i = Some x
                 /\ np_round1 x = x
                 /\ (np_isfinite x = true -> exists k : Z, x = Fin (inject_Z k / 10)).
Proof.
  intros Hcol Hz Hu Htd Hf Hm Hlen.
  assert (Hrun : state_dynamics d key s = (with_column key (mixed_column s d u col) s, Ok tt)).
  { apply state_dynamics_run; try assumption.
    intros i Hi. apply mixer_ranges_within in Hi; [lia | exact Hf]. }
  rewrite Hrun. split; [reflexivity|]. intros i Hi. cbn [fst].
  unfold layer. rewrite with_column_lookup. cbn [mbind option_bind].
  destruct (mixed_column_lookups s d u col Hf Hm Hlen) as (Hup & Hlow & _).
  cbv zeta in Hup, Hlow.
  assert (Hy : exists y, mixed_column s d u col !! Z.to_nat i = Some (np_round1 y)).
  { destruct (Z.lt_ge_cases i (split_index (fraction_upper_layer s) (melt_layers_of s d))).
    - eexists. apply Hup. lia.
    - eexists. apply Hlow. lia. }
  destruct Hy as (y & ->). eexists. split; [reflexivity|].
  split; [apply np_round1_idempotent|].
  destruct y as [q| | |]; try discriminate. intros _. eexists. reflexivity.
Qed.

(** X15.  What [update] leaves in [average_target].  For an event with
    non-zero layer thickness, a non-empty footprint, a positive [z_layers]
    and footprint columns at least [z_layers] long, [average_target] after
    [update], whether the mixing returned or raised, is the mean of the top
    [z_layers] values of the footprint cells as the store held them before
    the event. *)
Theorem update_average_target (distance : Q -> Q -> Q -> Q -> Q) (s : IMPAaCS)
    (impact_loc : Q * Q) (d t : Q) :
  let s3 := at_footprint distance impact_loc d t s in
  Qeq_bool (z_discretized_km s) 0 = false ->
  impacted_grid_cells s3 <> [] ->
  0 < z_layers s3 ->
  (forall c col, c ∈ impacted_grid_cells s3 ->
     grid_cell_state s !! grid_cell_id_of c.1 c.2 = Some col ->
     z_layers s3 <= Z.of_nat (length col)) ->
  grid_cell_state s3 = grid_cell_state s
  /\ np_eq (to_np (average_target (fst (update distance impact_loc d t s))))
           (footprint_mean s3).
Proof.
  intros s3 Hz Hne Hzl Hdeep. split; [reflexivity|].
  rewrite update_run, Hz. cbv zeta. fold (at_footprint distance impact_loc d t s). fold s3.
  set (n := Z.of_nat (length (impacted_grid_cells s3))).
  assert (Hn : 0 < n).
  { unfold n. destruct (impacted_grid_cells s3); [contradiction | cbn [length]; lia]. }
  assert (E : (0 <? n) = true) by (apply Z.ltb_lt; exact Hn). rewrite E.
  assert (Hq : Qeq_bool (inject_Z (n * z_layers s3)) 0 = false).
  { destruct (Qeq_bool (inject_Z (n * z_layers s3)) 0) eqn:E'; [|reflexivity].
    apply Qeq_bool_iff in E'. change 0%Q with (inject_Z 0) in E'.
    rewrite inject_Z_injective in E'.
    assert (0 < n * z_layers s3) by (apply Z.mul_pos_pos; assumption). lia. }
  destruct (py_truediv_nonzero (target_sum s3) _ Hq) as [v Hv].
  rewrite seq_run, get_average_target_run. fold n. rewrite Hv.
  unfold loop_impact_grid. rewrite bind_get_self, mix_cells_average_target.
  cbn [average_target set_average_target].
  rewrite (to_np_truediv _ _ _ Hv Hq).
  unfold footprint_mean, np_mean.
  rewrite (footprint_values_length s3 Hzl Hdeep). fold n.
  apply np_eq_sym, np_div_proper, footprint_values_sum. exact Hzl.
Qed.

(** X16.  Layers deeper than every event stay as they were.  With the
    upper fraction between 0 and 1, after any finite sequence of [update]
    events, returning or raising, a layer whose index is at least the
    [melt_layers] of every event of the sequence holds the value it held
    before the sequence, in every column. *)
Theorem deep_layers_unchanged (distance : Q -> Q -> Q -> Q -> Q)
    (events : list (Q * Q * Q * Q)) (s : IMPAaCS) (n : nat) :
  (0 <= fraction_upper_layer s <= 1)%Q ->
  (forall e, e ∈ events -> melt_layers_of s e.1.2 <= Z.of_nat n) ->
  forall k col, grid_cell_state s !! k = Some col ->
    exists col', grid_cell_state (run_events distance events s) !! k = Some col'
                 /\ length col' = length col
                 /\ col' !! n = col !! n.
Proof.
  intros Hf Hall.
  assert (Hfr : params (run_events distance events s) = params s
                /\ store_frame (fun _ n' => (n' < n)%nat) s (run_events distance events s)).
  { revert s Hf Hall. induction events as [|[[loc d] t] events IH]; intros s Hf Hall.
    - split; [reflexivity | apply store_frame_refl].
    - change (run_events distance ((loc, d, t) :: events) s)
        with (run_events distance events (fst (update distance loc d t s))).
      destruct (update_keeps distance loc d t s (fun _ n' => (n' < n)%nat)) as (Hp & H1 & _).
      { intros c i len n' _ Hi Hn'. apply mixer_ranges_within in Hi; [|exact Hf].
        apply py_index_nonneg in Hn' as [-> _]; [|lia].
        specialize (Hall (loc, d, t)). cbn [fst snd] in Hall.
        assert (melt_layers_of s d <= Z.of_nat n) by (apply Hall; left). lia. }
      destruct (IH (fst (update distance loc d t s))) as [Hp' H2].
      + rewrite Hp. exact Hf.
      + intros e He. unfold melt_layers_of. rewrite Hp. apply Hall. right. exact He.
      + split; [exact (eq_trans Hp' Hp)|]. eapply store_frame_trans; eassumption. }
  destruct Hfr as [_ Hfr]. intros k col Hcol.
  destruct (store_frame_column _ _ _ _ _ Hfr Hcol) as (col' & H1 & H2 & H3).
  exists col'. split; [exact H1|]. split; [exact H2|]. apply H3. lia.
Qed.

(** ** The theorems at concrete objects *)


Lemma column_length_invariant_witness :
  (0 <= 330)%Q /\ (0 < 2)%Q
  /\ snd (init_default [0%Q; 1%Q; 2%Q] [0%Q; 1%Q; 2%Q]) = Ok tt.
Proof.
  assert (H1 : (0 <= 330)%Q) by (vm_compute; discriminate).
  assert (H2 : (0 < 2)%Q) by reflexivity.
  split; [exact H1|]. split; [exact H2|].
  exact (proj1 (column_length_invariant flat_distance [0%Q; 1%Q; 2%Q] [0%Q; 1%Q; 2%Q]
                  330 45 (2 # 3) (6258 # 100) (6871 # 100) 2 (1 # 3) 0
                  (-180, 180)%Q (-45, 45)%Q [] H1 H2)).
Defined.

Lemma partition_boundary_witness :
  (0 <= 2 # 3 <= 1)%Q /\ 0 <= 4
  /\ upper_layer (2 # 3) 4 ++ lower_layer (2 # 3) 4 = py_range 0 4.
Proof.
  assert (H1 : (0 <= 2 # 3 <= 1)%Q) by (split; vm_compute; discriminate).
  assert (H2 : 0 <= 4) by lia.
  split; [exact H1|]. split; [exact H2|].
  exact (proj2 (proj1 (proj2 (proj2 (proj2 (partition_boundary (2 # 3) 4)))) H1 H2)).
Defined.






(** ** The further theorems at concrete objects *)

Lemma init_uniform_witness :
  Qeq_bool 2 0 = false
  /\ 0 <= py_int (330 / 2)
  /\ average_target fresh_grid = PyNum 45.
Proof.
  assert (H1 : Qeq_bool 2 0 = false) by reflexivity.
  assert (H2 : 0 <= py_int (330 / 2)) by (vm_compute; discriminate).
  split; [exact H1|]. split; [exact H2|].
  exact (proj1 (proj2 (proj2
           (init_uniform [0%Q; 1%Q; 2%Q] [0%Q; 1%Q; 2%Q] 330 45 (2 # 3) (6258 # 100)
              (6871 # 100) 2 (1 # 3) 0 (-180, 180)%Q (-45, 45)%Q H1 H2)))).
Defined.

Lemma state_dynamics_missing_cell_witness :
  grid_cell_state fresh_grid !! (50000, 50000) = None
  /\ Qeq_bool (z_discretized_km fresh_grid) 0 = false
  /\ Qeq_bool (upper_SiO2 fresh_grid) 0 = false
  /\ state_dynamics 30 (50000, 50000) fresh_grid = (fresh_grid, Raise KeyError).
Proof.
  assert (H1 : grid_cell_state fresh_grid !! (50000, 50000) = None)
    by (vm_compute; reflexivity).
  assert (H2 : Qeq_bool (z_discretized_km fresh_grid) 0 = false) by reflexivity.
  assert (H3 : Qeq_bool (upper_SiO2 fresh_grid) 0 = false) by reflexivity.
  split; [exact H1|]. split; [exact H2|]. split; [exact H3|].
  rewrite (state_dynamics_missing_cell fresh_grid 30 (50000, 50000) H1 H2 H3).
  reflexivity.
Defined.

Lemma state_dynamics_too_deep_witness :
  exists col,
    grid_cell_state single_grid !! (0, 0) = Some col
    /\ Qeq_bool (z_discretized_km single_grid) 0 = false
    /\ Qeq_bool (upper_SiO2 single_grid) 0 = false
    /\ 0 <= split_index (fraction_upper_layer single_grid) (melt_layers_of single_grid 1000)
         < melt_layers_of single_grid 1000
    /\ Z.of_nat (length col) < melt_layers_of single_grid 1000
    /\ snd (state_dynamics 1000 (0, 0) single_grid) = Raise IndexError.
Proof.
  set (col := default [] (grid_cell_state single_grid !! (0, 0))).
  assert (H1 : grid_cell_state single_grid !! (0, 0) = Some col)
    by (vm_compute; reflexivity).
  assert (H2 : Qeq_bool (z_discretized_km single_grid) 0 = false) by reflexivity.
  assert (H3 : Qeq_bool (upper_SiO2 single_grid) 0 = false) by reflexivity.
  assert (H4 : 0 <= split_index (fraction_upper_layer single_grid)
                      (melt_layers_of single_grid 1000)
               < melt_layers_of single_grid 1000)
    by (vm_compute; split; [discriminate | reflexivity]).
  assert (H5 : Z.of_nat (length col) < melt_layers_of single_grid 1000)
    by (vm_compute; reflexivity).
  exists col. repeat (split; [assumption|]).
  destruct (state_dynamics_too_deep single_grid 1000 (0, 0) col H1 H2 H3 H4 H5)
    as (col' & Hrun & _).
  rewrite Hrun. reflexivity.
Defined.

Lemma shallow_impact_no_op_witness :
  (0 < z_discretized_km fresh_grid)%Q
  /\ (0 <= fraction_upper_layer fresh_grid <= 1)%Q
  /\ (5 * proportion_melt_from_impact fresh_grid < z_discretized_km fresh_grid)%Q
  /\ grid_cell_state (fst (update flat_distance (0%Q, 0%Q) 5 0 fresh_grid))
     = grid_cell_state fresh_grid.
Proof.
  assert (H1 : (0 < z_discretized_km fresh_grid)%Q) by reflexivity.
  assert (H2 : (0 <= fraction_upper_layer fresh_grid <= 1)%Q)
    by (vm_compute; split; discriminate).
  assert (H3 : (5 * proportion_melt_from_impact fresh_grid < z_discretized_km fresh_grid)%Q)
    by reflexivity.
  split; [exact H1|]. split; [exact H2|]. split; [exact H3|].
  exact (proj2 (shallow_impact_no_op flat_distance fresh_grid (0%Q, 0%Q) 5 0 H1 H2 H3)).
Defined.

Lemma disturbed_layers_rounded_witness :
  exists col u,
    grid_cell_state before_second_mix !! (0, 0) = Some col
    /\ Qeq_bool (z_discretized_km before_second_mix) 0 = false
    /\ Qeq_bool (upper_SiO2 before_second_mix) 0 = false
    /\ py_truediv (average_target before_second_mix)
                  (PyNum (one_minus_fractionation before_second_mix)) = Some u
    /\ (0 <= fraction_upper_layer before_second_mix <= 1)%Q
    /\ melt_layers_of before_second_mix 6 <= Z.of_nat (length col)
    /\ (0 < length col)%nat
    /\ exists x, layer (fst (state_dynamics 6 (0, 0) before_second_mix)) (0, 0) 0 = Some x
                 /\ np_round1 x = x.
Proof.
  set (col := default [] (grid_cell_state before_second_mix !! (0, 0))).
  set (u := NpNum (claimed_upper_value before_second_mix)).
  assert (H1 : grid_cell_state before_second_mix !! (0, 0) = Some col)
    by (vm_compute; reflexivity).
  assert (H2 : Qeq_bool (z_discretized_km before_second_mix) 0 = false) by reflexivity.
  assert (H3 : Qeq_bool (upper_SiO2 before_second_mix) 0 = false) by reflexivity.
  assert (H4 : py_truediv (average_target before_second_mix)
                 (PyNum (one_minus_fractionation before_second_mix)) = Some u)
    by (vm_compute; reflexivity).
  assert (H5 : (0 <= fraction_upper_layer before_second_mix <= 1)%Q)
    by (vm_compute; split; discriminate).
  assert (H6 : melt_layers_of before_second_mix 6 <= Z.of_nat (length col))
    by (vm_compute; discriminate).
  assert (H7 : (0 < length col)%nat) by (vm_compute; lia).
  exists col, u. repeat (split; [assumption|]).
  destruct (proj2 (disturbed_layers_rounded before_second_mix 6 (0, 0) col u
                     H1 H2 H3 H4 H5 H6 H7) 0) as (x & Hx & Hr & _).
  { vm_compute. split; [discriminate | reflexivity]. }
  exists x. split; [exact Hx | exact Hr].
Defined.

Lemma update_average_target_witness :
  Qeq_bool (z_discretized_km after_first_hit) 0 = false
  /\ impacted_grid_cells (at_footprint flat_distance (0%Q, 0%Q) 6 1 after_first_hit) <> []
  /\ 0 < z_layers (at_footprint flat_distance (0%Q, 0%Q) 6 1 after_first_hit)
  /\ (forall c col,
        c ∈ impacted_grid_cells (at_footprint flat_distance (0%Q, 0%Q) 6 1 after_first_hit) ->
        grid_cell_state after_first_hit !! grid_cell_id_of c.1 c.2 = Some col ->
        z_layers (at_footprint flat_distance (0%Q, 0%Q) 6 1 after_first_hit)
        <= Z.of_nat (length col))
  /\ np_eq (to_np (average_target (fst (update flat_distance (0%Q, 0%Q) 6 1 after_first_hit))))
           (footprint_mean (at_footprint flat_distance (0%Q, 0%Q) 6 1 after_first_hit)).
Proof.
  set (s3 := at_footprint flat_distance (0%Q, 0%Q) 6 1 after_first_hit).
  assert (G : impacted_grid_cells s3 = [(0%Q, 0%Q)]) by (vm_compute; reflexivity).
  assert (H1 : Qeq_bool (z_discretized_km after_first_hit) 0 = false) by reflexivity.
  assert (H2 : impacted_grid_cells s3 <> []) by (rewrite G; discriminate).
  assert (H3 : 0 < z_layers s3) by reflexivity.
  assert (H4 : forall c col, c ∈ impacted_grid_cells s3 ->
             grid_cell_state after_first_hit !! grid_cell_id_of c.1 c.2 = Some col ->
             z_layers s3 <= Z.of_nat (length col)).
  { intros c col Hc Hcol. rewrite G in Hc.
    apply list_elem_of_singleton in Hc. subst c.
    vm_compute in Hcol. injection Hcol as <-. vm_compute. discriminate. }
  split; [exact H1|]. split; [exact H2|]. split; [exact H3|]. split; [exact H4|].
  exact (proj2 (update_average_target flat_distance after_first_hit (0%Q, 0%Q) 6 1
                  H1 H2 H3 H4)).
Defined.

Lemma deep_layers_unchanged_witness :
  exists col col',
    (0 <= fraction_upper_layer single_grid <= 1)%Q
    /\ (forall e, e ∈ [((0%Q, 0%Q), 30%Q, 0%Q); ((0%Q, 0%Q), 6%Q, 1%Q)] ->
          melt_layers_of single_grid e.1.2 <= Z.of_nat 5)
    /\ grid_cell_state single_grid !! (0, 0) = Some col
    /\ grid_cell_state
         (run_events flat_distance [((0%Q, 0%Q), 30%Q, 0%Q); ((0%Q, 0%Q), 6%Q, 1%Q)]
            single_grid) !! (0, 0) = Some col'
    /\ col' !! 5%nat = col !! 5%nat.
Proof.
  set (col := default [] (grid_cell_state single_grid !! (0, 0))).
  assert (H1 : (0 <= fraction_upper_layer single_grid <= 1)%Q)
    by (vm_compute; split; discriminate).
  assert (H2 : forall e, e ∈ [((0%Q, 0%Q), 30%Q, 0%Q); ((0%Q, 0%Q), 6%Q, 1%Q)] ->
             melt_layers_of single_grid e.1.2 <= Z.of_nat 5).
  { intros e He.
    repeat (apply elem_of_cons in He as [->|He]; [vm_compute; discriminate|]).
    inversion He. }
  assert (H3 : grid_cell_state single_grid !! (0, 0) = Some col)
    by (vm_compute; reflexivity).
  destruct (deep_layers_unchanged flat_distance _ single_grid 5 H1 H2 (0, 0) col H3)
    as (col' & Hc & _ & Hn).
  exists col, col'. repeat (split; [assumption|]). exact Hn.
Defined.
